(** * rekt-nostr-mirror: the NIP-23 publisher

    A shallow embedding of [src/nip23-publisher.ts] and [nostr.ts]
    (the event builder, the signer factory, the confirmation wait and the
    batch loop), with the properties the specification states about them.

    Conventions of the embedding.
    - A JavaScript number is an exact rational ([Q]) where the source divides,
      and an integer ([Z] or [nat]) where it counts; [Math.floor] and
      [Math.ceil] are [Qfloor] and [Qceiling].
    - A thrown value is either an [Error] object with its message or some
      other value: the source tests [error instanceof Error].
    - An [async] function is a computation that returns, throws or never
      settles, together with the trace of the effects it performed, in
      program order: console lines, calls into the relay pool and the signer,
      timers.
    - Platform and library functions the repository only calls ([new URL],
      [String.prototype.toLowerCase], the signer classes, the relay pool)
      are parameters. *)

From Stdlib Require Import String Ascii List ZArith Bool Arith Lia.
From Stdlib Require Import QArith Qround DecimalString.
Import ListNotations.

#[local] Open Scope string_scope.
#[local] Open Scope list_scope.
#[local] Open Scope nat_scope.

(** ** JavaScript values and computations *)

Module JS.

(** What a [throw] carries. *)
Inductive Thrown : Type :=
| ErrorObj (message : string)
| NonError (value : string).

(** How the evaluation of a statement ends. [Hang] is an [await] on a
    promise that is never settled. *)
Inductive Completion (A : Type) : Type :=
| Normal (a : A)
| Throw (e : Thrown)
| Hang.

Arguments Normal {A} a.
Arguments Throw {A} e.
Arguments Hang {A}.

(** A settled promise of an external call. *)
Definition Settled (A : Type) : Type := (Thrown + A)%type.

Definition Math_floor (x : Q) : Z := Qfloor x.
Definition Math_ceil (x : Q) : Z := Qceiling x.

(** [Number.prototype.toString] on an integer. *)
Definition Number_toString (z : Z) : string :=
  NilZero.string_of_int (Z.to_int z).

(** [s.startsWith(p)]. *)
Definition startsWith (s p : string) : bool := prefix p s.

(** [s.replace(/^\//, "")]. *)
Definition replace_leading_slash (s : string) : string :=
  match s with
  | String c rest => if Ascii.eqb c "/" then rest else s
  | EmptyString => s
  end.

(** [s.replace(/\/$/, "")]: without the [m] flag [$] is the end of input. *)
Fixpoint replace_trailing_slash (s : string) : string :=
  match s with
  | EmptyString => EmptyString
  | String c EmptyString => if Ascii.eqb c "/" then EmptyString else s
  | String c rest => String c (replace_trailing_slash rest)
  end.

(** [s || d] on strings: the empty string is falsy. *)
Definition or_else (s d : string) : string :=
  match s with EmptyString => d | _ => s end.

(** Truthiness of an optional string ([undefined] and [""] are falsy). *)
Definition truthy (o : option string) : option string :=
  match o with
  | Some EmptyString => None
  | _ => o
  end.

End JS.
Import JS.

(** ** Effects *)

Record EventTemplate : Type := {
  kind : Z;
  created_at : Z;
  ev_content : string;
  ev_tags : list (list string)
}.

Record SignedEvent : Type := {
  id : string;
  pubkey : string;
  sig : string;
  template : EventTemplate
}.

(** Console output, one constructor per [console.log] / [console.error]
    call of the source, with the values interpolated in its message. *)
Inductive LogLine : Type :=
| LogSignerInitialized
| LogPublished (title : string)
| LogEventId (event_id : string)
| LogArticleId (articleId : string)
| LogPublishFailed (message : string)
| LogWaiting
| LogConfirmed (confirmations n : nat)
| LogCompleted (confirmations n : nat)
| LogBatchStart (n : nat) (delayMs : Z)
| LogPublishing (i n : nat) (title : string)
| LogPause (delayMs : Z)
| LogBatchItemFailed (title message : string)
| LogStarting
| LogConfiguration (dryRun : bool)
| LogInitializing
| LogFatal (message : string)
| LogStackTrace.

Inductive Effect : Type :=
| Console (l : LogLine)
| FromKey (signerString : string)
| BindPoolMethods
| FromBunkerURI (signerString : string)
| GetPublicKey
| SignEvent (ev : EventTemplate)
| PoolPublish (relays : list string) (ev : SignedEvent)
| PoolSubscription (relays : list string) (ids : list string)
| Unsubscribe
| SetTimeout (ms : Z)
| ClearTimeout
| Resolve
| Sleep (ms : Z)
| ProcessExit (code : Z).

(** A computation: how it ends and what it did. *)
Definition M (A : Type) : Type := (Completion A * list Effect)%type.

Definition ret {A} (a : A) : M A := (Normal a, []).
Definition throw {A} (e : Thrown) : M A := (Throw e, []).
Definition emit (e : Effect) : M unit := (Normal tt, [e]).
Definition log (l : LogLine) : M unit := emit (Console l).

Definition bind {A B} (m : M A) (k : A -> M B) : M B :=
  match m with
  | (Normal a, t) => let (r, t') := k a in (r, t ++ t')
  | (Throw e, t) => (Throw e, t)
  | (Hang, t) => (Hang, t)
  end.

(** [try { body } catch (error) { handler }]. *)
Definition try_catch {A} (body : M A) (handler : Thrown -> M A) : M A :=
  match body with
  | (Throw e, t) => let (r, t') := handler e in (r, t ++ t')
  | other => other
  end.

(** [await] on the promise of an external call, after the call [call]. *)
Definition await {A} (call : Effect) (p : Settled A) : M A :=
  match p with
  | inr a => (Normal a, [call])
  | inl e => (Throw e, [call])
  end.

Notation "x <- m ;; k" := (bind m (fun x => k))
  (at level 61, m at next level, right associativity).
Notation "m ;;; k" := (bind m (fun _ => k))
  (at level 61, right associativity).

Definition completion {A} (m : M A) : Completion A := fst m.
Definition trace {A} (m : M A) : list Effect := snd m.

(** ** Data model (src/scraper.ts, src/nip23-publisher.ts) *)

(** [publishedAt] is the time value of a valid [Date], in milliseconds since
    the epoch: the scraper keeps a parsed date only when [getTime()] is not
    [NaN]. *)
Record RektArticle : Type := {
  title : string;
  url : string;
  content : string;
  publishedAt : Z;
  summary : option string;
  image : option string;
  tags : list string
}.

Record PublishOptions : Type := {
  relays : option (list string);
  signerString : string
}.

(** The [ISigner] interface of applesauce-signers, as far as it is used. *)
Record ISigner : Type := {
  getPublicKey : Settled string;
  signEvent : EventTemplate -> Settled SignedEvent
}.

(** The signer classes of applesauce-signers. *)
Record SignerLib : Type := {
  PrivateKeySigner_fromKey : string -> Settled ISigner;
  NostrConnectSigner_fromBunkerURI : string -> Settled ISigner
}.

(** The platform: [new URL(u).pathname] ([None] when the constructor throws
    its [TypeError]) and [String.prototype.toLowerCase]. *)
Record Platform : Type := {
  URL_pathname : string -> option string;
  toLowerCase : string -> string
}.

(** What the outside world does during one call of [publishArticle]:
    [Date.now()], the outcome of [pool.publish], and the relays from which
    the subscription would yield the event before the 5000 ms timer is due,
    in order of arrival. *)
Record World : Type := {
  now : Z;
  pool_publish : list string -> SignedEvent -> Settled unit;
  observed : list string
}.

Record NIP23Publisher : Type := {
  signer : option ISigner;
  defaultRelays : list string
}.

Definition new_NIP23Publisher : NIP23Publisher := {|
  signer := None;
  defaultRelays :=
    [ "wss://relay.damus.io";
      "wss://nos.lol";
      "wss://relay.nostr.band";
      "wss://nostr.wine";
      "wss://relay.snort.social" ]
|}.

(** ** nostr.ts: createSigner *)

Definition invalid_signer_message (signerString : string) : string :=
  "Invalid signer provided: " ++ substring 0 10 signerString
    ++ "... Must start with 'nsec' or 'bunker://'".

Definition createSigner (lib : SignerLib) (signerString : string) : M ISigner :=
  s <- (if startsWith signerString "nsec" then
          await (FromKey signerString) (PrivateKeySigner_fromKey lib signerString)
        else if startsWith signerString "ncryptsec" then
          throw (ErrorObj "Ncryptsec signers are not supported")
        else if startsWith signerString "bunker://" then
          emit BindPoolMethods ;;;
          await (FromBunkerURI signerString)
                (NostrConnectSigner_fromBunkerURI lib signerString)
        else
          throw (ErrorObj (invalid_signer_message signerString))) ;;
  (* Validate the signer by getting the public key *)
  await GetPublicKey (getPublicKey s) ;;;
  ret s.

(** ** NIP23Publisher.initialize *)

Definition initialize (lib : SignerLib) (this : NIP23Publisher)
    (signerString : string) : M NIP23Publisher :=
  try_catch
    (s <- createSigner lib signerString ;;
     let this' := {| signer := Some s; defaultRelays := defaultRelays this |} in
     log LogSignerInitialized ;;;
     ret this')
    (fun error =>
       match error with
       | ErrorObj message =>
           throw (ErrorObj ("Failed to initialize signer: " ++ message))
       | NonError _ => ret this
       end).

(** ** Event builder *)

Section EventBuilder.

Context (pf : Platform).

Definition createArticleId (url : string) : M string :=
  match URL_pathname pf url with
  | None => throw (ErrorObj "Invalid URL")
  | Some urlPath =>
      ret (or_else (replace_trailing_slash (replace_leading_slash urlPath))
                   "article")
  end.

Definition published_at_value (article : RektArticle) : string :=
  Number_toString (Math_floor (inject_Z (publishedAt article) / 1000)).

Definition buildTags (article : RektArticle) (articleId : string)
    : list (list string) :=
  let out :=
    [ ["d"; articleId];
      ["title"; title article];
      ["published_at"; published_at_value article];
      ["client"; "rekt-nostr-mirror"];
      ["r"; url article] ] in
  let out :=
    match truthy (summary article) with
    | Some s => out ++ [["summary"; s]]
    | None => out
    end in
  let out :=
    match truthy (image article) with
    | Some i => out ++ [["image"; i]]
    | None => out
    end in
  let out :=
    fold_left (fun acc tag => acc ++ [["t"; toLowerCase pf tag]])
              (tags article) out in
  let out := out ++ [["subject"; "DeFi Security"]] in
  let out := out ++ [["subject"; "Blockchain"]] in
  out.

End EventBuilder.

(** ** The confirmation wait (NIP23Publisher.waitForPublication) *)

(** [Math.ceil(relays.length / 2)]. *)
Definition quorum (relays : list string) : Z :=
  Math_ceil (inject_Z (Z.of_nat (length relays)) / 2).

Inductive PromiseState : Type :=
| Pending
| Fulfilled
| Rejected (reason : Thrown).

Inductive TimerState : Type :=
| Armed
| Cleared
| Fired.

(** The variables the two callbacks close over: the counter, the
    subscription, the timer and the promise under construction. *)
Record WaitState : Type := {
  confirmations : nat;
  subscribed : bool;
  timeout : TimerState;
  promise : PromiseState
}.

(** Calling [resolve] on a settled promise does nothing. *)
Definition resolve (p : PromiseState) : PromiseState :=
  match p with Pending => Fulfilled | _ => p end.

(** [clearTimeout] on a timer that fired or was cleared does nothing. *)
Definition clearTimeout (t : TimerState) : TimerState :=
  match t with Armed => Cleared | _ => t end.

(** The state when the promise executor has returned: the subscription is
    open, the timer is armed, nothing was observed. The relay pool delivers
    what the relays send from the event loop, so both callbacks run after
    the executor has returned and both constants they name are bound. *)
Definition wait_start : WaitState := {|
  confirmations := 0;
  subscribed := true;
  timeout := Armed;
  promise := Pending
|}.

(** The observer passed to [observable.subscribe]. *)
Definition on_next (relays : list string) (s : WaitState)
    : WaitState * list Effect :=
  let confirmations' := S (confirmations s) in
  if (quorum relays <=? Z.of_nat confirmations')%Z then
    ({| confirmations := confirmations';
        subscribed := false;
        timeout := clearTimeout (timeout s);
        promise := resolve (promise s) |},
     [ ClearTimeout; Unsubscribe;
       Console (LogConfirmed confirmations' (length relays)); Resolve ])
  else
    ({| confirmations := confirmations';
        subscribed := subscribed s;
        timeout := timeout s;
        promise := promise s |}, []).

(** The function passed to [setTimeout]. *)
Definition on_timeout (relays : list string) (s : WaitState)
    : WaitState * list Effect :=
  ({| confirmations := confirmations s;
      subscribed := false;
      timeout := Fired;
      promise := resolve (promise s) |},
   [ Unsubscribe;
     Console (LogCompleted (confirmations s) (length relays)); Resolve ]).

(** What the event loop may hand to the wait: the event seen on a relay, or
    the timer coming due. *)
Inductive Callback : Type :=
| Next (relay : string)
| TimerDue.

(** An unsubscribed observer is not called again, and a timer that was
    cleared or has fired does not fire. *)
Definition deliver (relays : list string) (s : WaitState) (cb : Callback)
    : WaitState * list Effect :=
  match cb with
  | Next _ => if subscribed s then on_next relays s else (s, [])
  | TimerDue =>
      match timeout s with
      | Armed => on_timeout relays s
      | _ => (s, [])
      end
  end.

Fixpoint event_loop (relays : list string) (queue : list Callback)
    (s : WaitState) : WaitState * list Effect :=
  match queue with
  | [] => (s, [])
  | cb :: queue' =>
      let (s', t) := deliver relays s cb in
      let (s'', t') := event_loop relays queue' s' in
      (s'', t ++ t')
  end.

(** [await] on the promise the wait returns. *)
Definition await_promise (p : PromiseState) : Completion unit :=
  match p with
  | Fulfilled => Normal tt
  | Rejected e => Throw e
  | Pending => Hang
  end.

(** [arrivals] are the relays on which the event is seen before the timer
    is due; then the timer is due. *)
Definition waitForPublication (eventId : string) (relays : list string)
    (arrivals : list string) : M unit :=
  log LogWaiting ;;;
  emit (PoolSubscription relays [eventId]) ;;;
  emit (SetTimeout 5000) ;;;
  let (s, t) := event_loop relays (map Next arrivals ++ [TimerDue]) wait_start in
  (await_promise (promise s), t).

(** ** Publishing *)

Section Publisher.

Context (pf : Platform).

(** [options.relays || this.defaultRelays]: use specified relays or default
    ones. An array is truthy, also when it is empty. *)
Definition target_relays (this : NIP23Publisher) (options : PublishOptions)
    : list string :=
  match relays options with
  | Some rs => rs
  | None => defaultRelays this
  end.

(** The event literal of [publishArticle]. *)
Definition article_event (article : RektArticle) (articleId : string)
    (markdownContent : string) (w : World) : EventTemplate := {|
  kind := 30023;
  created_at := Math_floor (inject_Z (now w) / 1000);
  ev_content := markdownContent;
  ev_tags := buildTags pf article articleId
|}.

Definition publishArticle (this : NIP23Publisher) (article : RektArticle)
    (markdownContent : string) (options : PublishOptions) (w : World)
    : M string :=
  match signer this with
  | None => throw (ErrorObj "Publisher not initialized. Call initialize() first.")
  | Some the_signer =>
      let relays := target_relays this options in
      articleId <- createArticleId pf (url article) ;;
      let event := article_event article articleId markdownContent w in
      try_catch
        (signedEvent <- await (SignEvent event) (signEvent the_signer event) ;;
         await (PoolPublish relays signedEvent)
               (pool_publish w relays signedEvent) ;;;
         log (LogPublished (title article)) ;;;
         log (LogEventId (id signedEvent)) ;;;
         log (LogArticleId articleId) ;;;
         waitForPublication (id signedEvent) relays (observed w) ;;;
         ret (id signedEvent))
        (fun error =>
           match error with
           | ErrorObj message => log (LogPublishFailed message)
           | NonError _ => ret tt
           end ;;;
           throw error)
  end.

(** The body of the [for] loop of [publishMultipleArticles], from index [i];
    [n] is [articles.length] and [worlds i] is the world during item [i].
    Nothing after [eventIds.push] can throw, so the [try] block hands the
    extended list on. *)
Fixpoint publish_loop (this : NIP23Publisher) (options : PublishOptions)
    (delayMs : Z) (worlds : nat -> World) (n i : nat)
    (articles : list (RektArticle * string)) (eventIds : list string)
    : M (list string) :=
  match articles with
  | [] => ret eventIds
  | (article, markdown) :: rest =>
      eventIds' <-
        try_catch
          (log (LogPublishing (i + 1) n (title article)) ;;;
           eventId <- publishArticle this article markdown options (worlds i) ;;
           let eventIds' := eventIds ++ [eventId] in
           (* Delay between publications to avoid rate limiting *)
           (if (Z.of_nat i <? Z.of_nat n - 1)%Z then
              log (LogPause delayMs) ;;;
              emit (Sleep delayMs)
            else ret tt) ;;;
           ret eventIds')
          (fun error =>
             match error with
             | ErrorObj message =>
                 log (LogBatchItemFailed (title article) message)
             | NonError _ => ret tt
             end ;;;
             (* Continue with next article *)
             ret eventIds) ;;
      publish_loop this options delayMs worlds n (S i) rest eventIds'
  end.

Definition publishMultipleArticles (this : NIP23Publisher)
    (articles : list (RektArticle * string)) (options : PublishOptions)
    (delayMs : Z) (worlds : nat -> World) : M (list string) :=
  log (LogBatchStart (length articles) delayMs) ;;;
  publish_loop this options delayMs worlds (length articles) 0 articles [].

End Publisher.

(** The default of the [delayMs] parameter. *)
Definition default_delayMs : Z := 5000.

(** ** index.ts: the start of [RektNostrMirror.run] *)

Record Config : Type := {
  cfg_signerString : string;
  dryRun : bool
}.

(** [String(error)] where the source has no [message] to print. *)
Definition error_text (e : Thrown) : string :=
  match e with ErrorObj message => message | NonError v => v end.

(** [rest] stands for the remainder of the [try] block (scraping, conversion
    and publishing), which runs with the publisher as [initialize] left it.
    An [Error] has a stack to print. [process.exit] does not return. *)
Definition run (lib : SignerLib) (this : NIP23Publisher) (config : Config)
    (rest : NIP23Publisher -> M unit) : M unit :=
  log LogStarting ;;;
  log (LogConfiguration (dryRun config)) ;;;
  try_catch
    (this' <- (if negb (dryRun config) then
                 log LogInitializing ;;;
                 initialize lib this (cfg_signerString config)
               else ret this) ;;
     rest this')
    (fun error =>
       log (LogFatal (error_text error)) ;;;
       match error with
       | ErrorObj _ => log LogStackTrace
       | NonError _ => ret tt
       end ;;;
       emit (ProcessExit 1) ;;;
       (Hang, [])).

(** ** Definitions that follow the specification's words *)

(** Stripping one leading and one trailing slash, as the specification
    describes the identifier: on [/x/y/] the result is [x/y]. *)
Definition strip_one_leading_slash (s : string) : string :=
  if prefix "/" s then substring 1 (String.length s - 1) s else s.

Definition ends_with_slash (s : string) : bool :=
  match get (String.length s - 1) s with
  | Some c => Ascii.eqb c "/"
  | None => false
  end.

Definition strip_one_trailing_slash (s : string) : string :=
  if ends_with_slash s then substring 0 (String.length s - 1) s else s.

Definition fallback_identifier : string := "article".

(** The name of a tag entry is its first element. *)
Definition tag_named (name : string) (entry : list string) : bool :=
  match entry with
  | n :: _ => String.eqb n name
  | [] => false
  end.

(** A tag entry for an optional field: the field is present when it is
    defined and not the empty string. *)
Definition optional_tag (name : string) (v : option string)
    : list (list string) :=
  match v with
  | None => []
  | Some EmptyString => []
  | Some text => [[name; text]]
  end.

Section BatchSpec.

Context (pf : Platform) (this : NIP23Publisher) (options : PublishOptions)
        (worlds : nat -> World).

(** Whether item [i] of the batch is published, and under which identifier. *)
Definition item_result (i : nat) (item : RektArticle * string)
    : Completion string :=
  completion (publishArticle pf this (fst item) (snd item) options (worlds i)).

(** The identifiers of the items that succeed, in the order of the items;
    [i] is the index of the first item. *)
Fixpoint succeeded_ids (i : nat) (articles : list (RektArticle * string))
    : list string :=
  match articles with
  | [] => []
  | item :: rest =>
      match item_result i item with
      | Normal eventId => eventId :: succeeded_ids (S i) rest
      | _ => succeeded_ids (S i) rest
      end
  end.

(** The pacing of a batch: [inl k] where item number [k] (from 1) starts,
    [inr ms] where the loop sleeps. A sleep follows an item that succeeded
    and is not the last one. *)
Fixpoint pacing (delayMs : Z) (i : nat)
    (articles : list (RektArticle * string)) : list (nat + Z) :=
  match articles with
  | [] => []
  | item :: rest =>
      inl (i + 1)
      :: match item_result i item, rest with
         | Normal _, _ :: _ => [inr delayMs]
         | _, _ => []
         end
      ++ pacing delayMs (S i) rest
  end.

End BatchSpec.

(** The pacing with a sleep between every two successive items, whether
    the earlier one succeeded or not. *)
Fixpoint pacing_every_gap (delayMs : Z) (i : nat)
    (articles : list (RektArticle * string)) : list (nat + Z) :=
  match articles with
  | [] => []
  | _ :: rest =>
      inl (i + 1)
      :: match rest with
         | _ :: _ => [inr delayMs]
         | [] => []
         end
      ++ pacing_every_gap delayMs (S i) rest
  end.

(** The numbers of the items started, in order. *)
Definition starts (p : list (nat + Z)) : list nat :=
  flat_map (fun x => match x with inl k => [k] | inr _ => [] end) p.

(** The pacing read off a trace: the starts of items and the sleeps. *)
Definition pacing_of (t : list Effect) : list (nat + Z) :=
  flat_map
    (fun e =>
       match e with
       | Console (LogPublishing k _ _) => [inl k]
       | Sleep ms => [inr ms]
       | _ => []
       end) t.

(** States the wait can be in: those the event loop reaches from the start,
    whatever it delivers and in whatever order. *)
Definition reachable (relays : list string) (s : WaitState) : Prop :=
  exists queue, fst (event_loop relays queue wait_start) = s.

(** The three shapes of a reachable state. *)
Definition waiting (c : nat) : WaitState :=
  {| confirmations := c; subscribed := true; timeout := Armed;
     promise := Pending |}.

Definition confirmed (c : nat) : WaitState :=
  {| confirmations := c; subscribed := false; timeout := Cleared;
     promise := Fulfilled |}.

Definition timed_out (c : nat) : WaitState :=
  {| confirmations := c; subscribed := false; timeout := Fired;
     promise := Fulfilled |}.

(** While the wait is pending the counter is below the quorum target, or
    nothing was observed yet; it settles either on the observation that
    reaches the target or on the timer. *)
Inductive wait_invariant (relays : list string) : WaitState -> Prop :=
| inv_waiting (c : nat) :
    c = 0 \/ (Z.of_nat c < quorum relays)%Z ->
    wait_invariant relays (waiting c)
| inv_confirmed (c : nat) :
    0 < c -> (quorum relays <= Z.of_nat c)%Z ->
    wait_invariant relays (confirmed c)
| inv_timed_out (c : nat) :
    c = 0 \/ (Z.of_nat c < quorum relays)%Z ->
    wait_invariant relays (timed_out c).

(** The number of the observation that settles the wait: the first count,
    from 1, that is at least the quorum target. *)
Definition settling_count (relays : list string) : nat :=
  Z.to_nat (Z.max 1 (quorum relays)).

(** ** Sample data for the examples *)

Definition ascii_lower (c : ascii) : ascii :=
  let n := nat_of_ascii c in
  if (65 <=? n) && (n <=? 90) then ascii_of_nat (n + 32) else c.

Fixpoint ascii_toLowerCase (s : string) : string :=
  match s with
  | EmptyString => EmptyString
  | String c rest => String (ascii_lower c) (ascii_toLowerCase rest)
  end.

(** The path of a URL on the one host of the examples. *)
Definition site_pathname (u : string) : option string :=
  if prefix "https://site" u then
    Some (or_else (substring 12 (String.length u - 12) u) "/")
  else None.

Definition sample_platform : Platform := {|
  URL_pathname := site_pathname;
  toLowerCase := ascii_toLowerCase
|}.

Definition article_at (path : string) : RektArticle := {|
  title := path;
  url := "https://site" ++ path;
  content := "";
  publishedAt := 1700000000999;
  summary := None;
  image := None;
  tags := ["rekt"; "DeFi"]
|}.

Definition illustrated_article : RektArticle := {|
  title := "Big Hack";
  url := "https://site/big-hack/";
  content := "";
  publishedAt := 1700000000999;
  summary := Some "What happened";
  image := Some "https://site/img.png";
  tags := ["Rekt"]
|}.

(** A signer that signs everything except the event whose [d] tag is
    [refused]. *)
Definition d_value (ev : EventTemplate) : string :=
  nth 1 (hd [] (ev_tags ev)) "".

Definition sign_as (ev : EventTemplate) : SignedEvent := {|
  id := "id:" ++ d_value ev;
  pubkey := "pk";
  sig := "sig";
  template := ev
|}.

Definition signer_refusing (refused : string) : ISigner := {|
  getPublicKey := inr "pk";
  signEvent := fun ev =>
    if String.eqb (d_value ev) refused then inl (ErrorObj "signing refused")
    else inr (sign_as ev)
|}.

Definition publisher_with (s : ISigner) : NIP23Publisher := {|
  signer := Some s;
  defaultRelays := defaultRelays new_NIP23Publisher
|}.

Definition calm_world (arrivals : list string) : World := {|
  now := 1700000000123;
  pool_publish := fun _ _ => inr tt;
  observed := arrivals
|}.

Definition two_relays : PublishOptions := {|
  relays := Some ["wss://a"; "wss://b"];
  signerString := "nsec1"
|}.

Definition no_relays : PublishOptions := {|
  relays := Some [];
  signerString := "nsec1"
|}.

(** A bunker whose answer makes the library reject with a plain value. *)
Definition lib_rejecting_plainly : SignerLib := {|
  PrivateKeySigner_fromKey := fun _ => inr (signer_refusing "");
  NostrConnectSigner_fromBunkerURI := fun _ => inl (NonError "denied")
|}.

Definition lib_rejecting_with_error : SignerLib := {|
  PrivateKeySigner_fromKey := fun _ => inl (ErrorObj "bad key");
  NostrConnectSigner_fromBunkerURI := fun _ => inl (ErrorObj "no route")
|}.

Definition bunker_config : Config := {|
  cfg_signerString := "bunker://x";
  dryRun := false
|}.

Definition two_articles : list (RektArticle * string) :=
  [ (article_at "/one", "# one");
    (article_at "/two", "# two") ].

Definition three_articles : list (RektArticle * string) :=
  [ (article_at "/one", "# one");
    (article_at "/two", "# two");
    (article_at "/three", "# three") ].

(** ** Further definitions: reading traces *)

(** The effects of the confirmation wait. *)
Definition is_wait_effect (e : Effect) : bool :=
  match e with
  | PoolSubscription _ _ | SetTimeout _ | ClearTimeout | Unsubscribe
  | Resolve => true
  | _ => false
  end.

Definition is_resolve (e : Effect) : bool :=
  match e with Resolve => true | _ => false end.

Definition is_unsubscribe (e : Effect) : bool :=
  match e with Unsubscribe => true | _ => false end.

Definition is_clear_timeout (e : Effect) : bool :=
  match e with ClearTimeout => true | _ => false end.

Definition is_sleep (e : Effect) : bool :=
  match e with Sleep _ => true | _ => false end.

(** Calls that leave the process: into the signer library, the signer and
    the relay pool. *)
Definition is_external_call (e : Effect) : bool :=
  match e with
  | FromKey _ | BindPoolMethods | FromBunkerURI _ | GetPublicKey
  | SignEvent _ | PoolPublish _ _ | PoolSubscription _ _ => true
  | _ => false
  end.

Definition count (p : Effect -> bool) (t : list Effect) : nat :=
  length (filter p t).

(** The confirmation counts that [waitForPublication] prints. *)
Definition reported_confirmations (t : list Effect) : list nat :=
  flat_map
    (fun e =>
       match e with
       | Console (LogConfirmed c _) => [c]
       | Console (LogCompleted c _) => [c]
       | _ => []
       end) t.

(** The failure lines of the batch loop. *)
Definition is_item_failed_line (e : Effect) : bool :=
  match e with Console (LogBatchItemFailed _ _) => true | _ => false end.

Section BatchReading.

Context (pf : Platform) (this : NIP23Publisher) (options : PublishOptions)
        (worlds : nat -> World).

(** The number of items, from index [i], whose publication throws an
    [Error]. *)
Fixpoint failed_with_error (i : nat) (articles : list (RektArticle * string))
    : nat :=
  match articles with
  | [] => 0
  | item :: rest =>
      match item_result pf this options worlds i item with
      | Throw (ErrorObj _) => S (failed_with_error (S i) rest)
      | _ => failed_with_error (S i) rest
      end
  end.

End BatchReading.

(** What the batch prints for an item that fails for want of a signer. *)
Definition not_initialized_lines (n : nat)
    (indexed : list (nat * (RektArticle * string))) : list Effect :=
  flat_map
    (fun entry =>
       [ Console (LogPublishing (fst entry + 1) n (title (fst (snd entry))));
         Console (LogBatchItemFailed (title (fst (snd entry)))
                    "Publisher not initialized. Call initialize() first.") ])
    indexed.

(** The sleeps of a pacing, in order. *)
Definition sleeps (p : list (nat + Z)) : list Z :=
  flat_map (fun x => match x with inl _ => [] | inr ms => [ms] end) p.

(** ** Strings as the converter and the scraper use them

    A string is the sequence of its code units; the model carries the code
    units below 256. *)

Definition newline : ascii := "010"%char.
Definition double_quote : ascii := "034"%char.

(** The characters [\s] matches and [trim] removes: white space and line
    terminators (tab, line feed, vertical tab, form feed, carriage return,
    space, no-break space). *)
Definition is_whitespace (c : ascii) : bool :=
  let n := nat_of_ascii c in
  ((9 <=? n) && (n <=? 13)) || (n =? 32) || (n =? 160).

Fixpoint trimStart (s : string) : string :=
  match s with
  | EmptyString => EmptyString
  | String c rest => if is_whitespace c then trimStart rest else s
  end.

Fixpoint trimEnd (s : string) : string :=
  match s with
  | EmptyString => EmptyString
  | String c rest =>
      match trimEnd rest with
      | EmptyString => if is_whitespace c then EmptyString
                       else String c EmptyString
      | kept => String c kept
      end
  end.

Definition trim (s : string) : string := trimEnd (trimStart s).

(** [s.split(sep)] for a separator of one character: never the empty list. *)
Fixpoint split_on (sep : ascii) (s : string) : list string :=
  match s with
  | EmptyString => [EmptyString]
  | String c rest =>
      if Ascii.eqb c sep then EmptyString :: split_on sep rest
      else match split_on sep rest with
           | piece :: pieces => String c piece :: pieces
           | [] => [String c EmptyString]
           end
  end.

(** [s.includes(p)]. *)
Fixpoint includes (s p : string) : bool :=
  if prefix p s then true
  else match s with
       | EmptyString => false
       | String _ rest => includes rest p
       end.

(** Whether [c] does not occur in [s]. *)
Fixpoint lacks (c : ascii) (s : string) : bool :=
  match s with
  | EmptyString => true
  | String x rest => negb (Ascii.eqb x c) && lacks c rest
  end.

Fixpoint all_whitespace (s : string) : bool :=
  match s with
  | EmptyString => true
  | String c rest => is_whitespace c && all_whitespace rest
  end.

(** A value or the empty string: [v || ""]. *)
Definition or_empty (v : option string) : string :=
  match v with Some s => s | None => EmptyString end.

(** ** src/markdown-converter.ts *)

Record ConversionResult : Type := {
  markdown : string;
  extractedImage : option string
}.

(** The replacement of the [images] rule, from the [alt], [src] and [title]
    attributes of the node ([None] where [getAttribute] gives [null]). *)
Definition image_replacement (alt_attr src_attr title_attr : option string)
    : string :=
  let alt := or_empty alt_attr in
  let src := or_empty src_attr in
  match src with
  | EmptyString => EmptyString
  | _ =>
      let titlePart :=
        match truthy title_attr with
        | Some t =>
            (" " ++ String double_quote t ++ String double_quote "")%string
        | None => EmptyString
        end in
      ("![" ++ alt ++ "](" ++ src ++ titlePart ++ ")")%string
  end.

(** The replacement of the [blockquotes] rule. *)
Definition blockquote_replacement (content : string) : string :=
  (String.concat (String newline "")
     (map (fun line => "> " ++ line)%string (split_on newline (trim content)))
   ++ String newline (String newline ""))%string.

(** The text before the first [stop] and the text after it. *)
Fixpoint take_until (stop : ascii) (s : string) : option (string * string) :=
  match s with
  | EmptyString => None
  | String c rest =>
      if Ascii.eqb c stop then Some (EmptyString, rest)
      else match take_until stop rest with
           | Some (before, after) => Some (String c before, after)
           | None => None
           end
  end.

(** [s] without the prefix [p], when it starts with it. *)
Fixpoint strip_prefix (p s : string) : option string :=
  match p, s with
  | EmptyString, _ => Some s
  | String a p', String b s' =>
      if Ascii.eqb a b then strip_prefix p' s' else None
  | String _ _, EmptyString => None
  end.

(** The optional group that ends [imageRegex], white space and then a line
    feed, at the head of [s]: greedy, so it takes the white space up to the
    last line feed of the run; [None] when the run has no line feed and the
    group matches nothing. *)
Fixpoint line_end_group (s : string) : option string :=
  match s with
  | EmptyString => None
  | String c rest =>
      if is_whitespace c then
        match line_end_group rest with
        | Some after => Some after
        | None => if Ascii.eqb c newline then Some rest else None
        end
      else None
  end.

(** The match of [imageRegex] at the start of [s]: white space, an
    exclamation mark, the alternative text in square brackets (any characters
    but the closing bracket), the target in parentheses (one or more
    characters, none of them the closing parenthesis), and the optional line
    end. The result is the two groups and what follows the match. Neither
    class contains the character that must follow it, so each group ends at
    the first such character. *)
Definition imageRegex (s : string) : option (string * string * string) :=
  match strip_prefix "![" (trimStart s) with
  | None => None
  | Some after_bang =>
      match take_until "]" after_bang with
      | None => None
      | Some (alt, after_alt) =>
          match strip_prefix "(" after_alt with
          | None => None
          | Some after_paren =>
              match take_until ")" after_paren with
              | None => None
              | Some (EmptyString, _) => None
              | Some (target, after_target) =>
                  Some (alt, target,
                        match line_end_group after_target with
                        | Some after => after
                        | None => after_target
                        end)
              end
          end
      end
  end.

Definition extractLeadingImage (md : string) : ConversionResult :=
  match imageRegex md with
  | Some (_, target, after) =>
      {| markdown := trim after; extractedImage := Some target |}
  | None => {| markdown := md; extractedImage := None |}
  end.

(** ** index.ts: the command line *)

(** A JavaScript number as an option of the command line can be. *)
Inductive JSNumber : Type :=
| NaN
| Finite (q : Q)
| PlusInfinity
| MinusInfinity.

(** [a < b] and [a <= b]: false as soon as one side is [NaN]. *)
Definition js_lt (a b : JSNumber) : bool :=
  match a, b with
  | NaN, _ | _, NaN => false
  | Finite p, Finite q => negb (Qle_bool q p)
  | MinusInfinity, MinusInfinity => false
  | MinusInfinity, _ => true
  | _, PlusInfinity => match a with PlusInfinity => false | _ => true end
  | _, _ => false
  end.

Definition js_le (a b : JSNumber) : bool :=
  match a, b with
  | NaN, _ | _, NaN => false
  | Finite p, Finite q => Qle_bool p q
  | MinusInfinity, _ => true
  | _, PlusInfinity => true
  | _, _ => false
  end.

(** The parsed arguments the validation reads. *)
Record Argv : Type := {
  argv_signer : option string;
  argv_limit : JSNumber;
  argv_delay : JSNumber;
  argv_dryRun : bool
}.

(** The errors of the validation, one for each message. *)
Inductive ArgumentError : Type :=
| SignerRequired
| LimitNotPositive
| DelayNegative.

(** The function given to [.check]: [inr tt] where it returns [true]. *)
Definition check (argv : Argv) : ArgumentError + unit :=
  if negb (argv_dryRun argv)
     && match truthy (argv_signer argv) with None => true | Some _ => false end
  then inl SignerRequired
  else if js_le (argv_limit argv) (Finite 0) then inl LimitNotPositive
  else if js_lt (argv_delay argv) (Finite 0) then inl DelayNegative
  else inr tt.

(** The [coerce] of the [relays] option. *)
Definition coerce_relays (arg : string) : option (list string) :=
  match arg with
  | EmptyString => None
  | _ => Some (map trim (split_on "," arg))
  end.

(** How often [c] occurs in [s]. *)
Fixpoint occurrences (c : ascii) (s : string) : nat :=
  match s with
  | EmptyString => 0
  | String x rest =>
      (if Ascii.eqb x c then 1 else 0) + occurrences c rest
  end.

(** What the validation lets through, number by number. *)
Definition limit_passes (limit : JSNumber) : Prop :=
  match limit with
  | Finite q => (0 < q)%Q
  | NaN | PlusInfinity => True
  | MinusInfinity => False
  end.

Definition delay_passes (delay : JSNumber) : Prop :=
  match delay with
  | Finite q => (0 <= q)%Q
  | NaN | PlusInfinity => True
  | MinusInfinity => False
  end.

(** ** src/scraper.ts

    The scraper reads pages through [fetch] and cheerio. The model takes
    what they give: for the listing the posts that the selector
    [article.post] finds, in document order, each with the texts and
    attributes the code reads from it; for an article page the values of the
    selectors the code queries. The functions are modelled by the articles
    they return; their console lines and the order in which the page
    requests of [Promise.all] complete are not recorded. *)

Definition baseUrl : string := "https://rekt.news".

Definition excludePatterns : list string :=
  [ "/tag/"; "/tags/"; "/category/"; "/categories/"; "/author/"; "/authors/";
    "/page/"; "/feed"; "/rss"; "/sitemap"; "/search"; "/api/"; "/admin/";
    "/wp-"; "#" ].

Definition excludePages : list string :=
  [ "/about"; "/contact"; "/privacy"; "/terms"; "/subscribe"; "/archive";
    "/archives" ].

(** The class of digits, dash and underscore. *)
Definition is_digit_dash_underscore (c : ascii) : bool :=
  let n := nat_of_ascii c in
  ((48 <=? n) && (n <=? 57)) || Ascii.eqb c "-" || Ascii.eqb c "_".

Fixpoint drop_while (p : ascii -> bool) (s : string) : string :=
  match s with
  | EmptyString => EmptyString
  | String c rest => if p c then drop_while p rest else s
  end.

(** The test of the href against the pattern of a slash, one or more
    characters of the class, an optional slash and the end of the string. *)
Definition numbers_only (href : string) : bool :=
  match href with
  | String c (String d rest) =>
      Ascii.eqb c "/" && is_digit_dash_underscore d
      && (let tail := drop_while is_digit_dash_underscore rest in
          String.eqb tail "" || String.eqb tail "/")
  | _ => false
  end.

Definition isArticleLink (pf : Platform) (href : string) : bool :=
  let lowerHref := toLowerCase pf href in
  if existsb (fun pattern => includes lowerHref pattern) excludePatterns
  then false
  else if existsb
            (fun page => String.eqb lowerHref page
                         || String.eqb lowerHref (page ++ "/"))
            excludePages
  then false
  else if (String.length href <? 3) || numbers_only href then false
  else true.

(** How a [fetch] ends: rejected, answered with a status that is not ok, or
    answered with a document. *)
Inductive FetchResult (A : Type) : Type :=
| FetchRejected (e : Thrown)
| ResponseNotOk (status : Z)
| ResponseOk (document : A).

Arguments FetchRejected {A} e.
Arguments ResponseNotOk {A} status.
Arguments ResponseOk {A} document.

(** A post of the listing: the [href] and the text of its title link, the
    text of its [time] element, of its excerpt and of its tag links. *)
Record PostView : Type := {
  post_href : option string;
  post_title : string;
  post_time : string;
  post_excerpt : string;
  post_tags : list string
}.

(** A selector on an article page: whether it found an element, the text
    and the inner HTML of the first one. *)
Record SelectorHit : Type := {
  hit_found : bool;
  hit_text : string;
  hit_html : option string
}.

Record DateHit : Type := {
  date_attr : option string;
  date_text : string
}.

(** An article page: the content selectors and the date selectors in the
    order the code tries them, and the metadata it reads. *)
Record PageView : Type := {
  page_contents : list SelectorHit;
  page_h1 : string;
  page_title : string;
  page_meta_description : option string;
  page_og_description : option string;
  page_first_p : string;
  page_og_image : option string;
  page_first_img : option string;
  page_dates : list DateHit
}.

(** The outside world of a scrape: [new Date()] at the post of a given
    index, [new Date(s).getTime()] ([None] for [NaN]),
    [new URL(u, base).href] ([None] when it throws), and the fetches. *)
Record ScrapeWorld : Type := {
  clock : nat -> Z;
  Date_parse : string -> option Z;
  URL_resolve : string -> string -> option string;
  fetch_listing : FetchResult (list PostView);
  fetch_page : string -> FetchResult PageView
}.

Section Scraper.

Context (pf : Platform) (sw : ScrapeWorld).

(** The tags of a post: the three fixed ones, then the lower-cased texts of
    the tag links that are not empty and not there yet. *)
Definition listing_tags (texts : list string) : list string :=
  fold_left
    (fun tags text =>
       let tagText := toLowerCase pf (trim text) in
       match tagText with
       | EmptyString => tags
       | _ => if existsb (String.eqb tagText) tags then tags
              else tags ++ [tagText]
       end)
    texts ["rekt"; "defi"; "security"].

(** The body of the loop over the posts: the article pushed for the post of
    index [i], if any. *)
Definition listing_article (i : nat) (post : PostView) : option RektArticle :=
  let title := trim (post_title post) in
  match truthy (post_href post), title with
  | Some href, String _ _ =>
      if startsWith href "/" && negb (String.eqb href "/")
         && isArticleLink pf href
      then
        let publishedAt :=
          match trim (post_time post) with
          | EmptyString => clock sw i
          | dateText =>
              match Date_parse sw dateText with
              | Some parsed => parsed
              | None => clock sw i
              end
          end in
        Some {| title := title;
                url := (baseUrl ++ href)%string;
                content := EmptyString;
                publishedAt := publishedAt;
                summary := truthy (Some (trim (post_excerpt post)));
                image := None;
                tags := listing_tags (post_tags post) |}
      else None
  | _, _ => None
  end.

Fixpoint listing_articles (i : nat) (posts : list PostView)
    : list RektArticle :=
  match posts with
  | [] => []
  | post :: rest =>
      match listing_article i post with
      | Some article => article :: listing_articles (S i) rest
      | None => listing_articles (S i) rest
      end
  end.

(** [l.findIndex(p)]: [None] for -1. *)
Fixpoint findIndex_from {A : Type} (p : A -> bool) (l : list A) (i : nat)
    : option nat :=
  match l with
  | [] => None
  | a :: rest => if p a then Some i else findIndex_from p rest (S i)
  end.

Definition findIndex {A : Type} (p : A -> bool) (l : list A) : option nat :=
  findIndex_from p l 0.

(** [l.filter((element, index) => f element index)]. *)
Definition filter_indexed {A : Type} (f : A -> nat -> bool) (l : list A)
    : list A :=
  map snd
      (filter (fun entry => f (snd entry) (fst entry))
              (combine (seq 0 (length l)) l)).

(** The integer a number stands for as an index: truncated, 0 for [NaN]. *)
Definition truncate (q : Q) : Z :=
  if Qle_bool 0 q then Qfloor q else Qceiling q.

(** The end of [l.slice(0, limit)] for a list of length [len]. *)
Definition slice_end (len : nat) (limit : JSNumber) : nat :=
  match limit with
  | NaN => 0
  | MinusInfinity => 0
  | PlusInfinity => len
  | Finite q =>
      let k := truncate q in
      if (k <? 0)%Z then Z.to_nat (Z.max (Z.of_nat len + k) 0)
      else Z.to_nat (Z.min k (Z.of_nat len))
  end.

(** Remove duplicates and limit. *)
Definition uniqueArticles (articles : list RektArticle) (limit : JSNumber)
    : list RektArticle :=
  let unique :=
    filter_indexed
      (fun article index =>
         match findIndex (fun a => String.eqb (url a) (url article)) articles
         with
         | Some first => first =? index
         | None => false
         end)
      articles in
  firstn (slice_end (length unique) limit) unique.

(** The first content selector that found an element whose trimmed text is
    longer than 100 gives the content. *)
Fixpoint pick_content (hits : list SelectorHit) : string :=
  match hits with
  | [] => EmptyString
  | hit :: rest =>
      if hit_found hit && (100 <? String.length (trim (hit_text hit)))
      then or_empty (hit_html hit)
      else pick_content rest
  end.

(** The first date selector with a value that parses gives the date. *)
Fixpoint pick_date (hits : list DateHit) (publishedAt : Z) : Z :=
  match hits with
  | [] => publishedAt
  | hit :: rest =>
      match truthy (Some (match truthy (date_attr hit) with
                          | Some datetime => datetime
                          | None => date_text hit
                          end)) with
      | Some datetime =>
          match Date_parse sw datetime with
          | Some parsed => parsed
          | None => pick_date rest publishedAt
          end
      | None => pick_date rest publishedAt
      end
  end.

Definition fetchArticleContent (article : RektArticle) : RektArticle :=
  match fetch_page sw (url article) with
  | FetchRejected _ => article
  | ResponseNotOk _ => article
  | ResponseOk page =>
      let content' := pick_content (page_contents page) in
      let title' :=
        or_else (trim (page_h1 page))
                (or_else (trim (page_title page)) (title article)) in
      let summary' :=
        match truthy (page_meta_description page) with
        | Some description => description
        | None =>
            match truthy (page_og_description page) with
            | Some description => description
            | None => substring 0 200 (trim (page_first_p page))
            end
        end in
      let image' :=
        match truthy (page_og_image page) with
        | Some src => Some src
        | None => truthy (page_first_img page)
        end in
      let publishedAt' := pick_date (page_dates page) (publishedAt article) in
      match image' with
      | None =>
          {| title := title';
             url := url article;
             content := or_else content' (content article);
             publishedAt := publishedAt';
             summary := Some summary';
             image := None;
             tags := tags article |}
      | Some src =>
          match URL_resolve sw src (url article) with
          | None => article
          | Some href =>
              {| title := title';
                 url := url article;
                 content := or_else content' (content article);
                 publishedAt := publishedAt';
                 summary := Some summary';
                 image := Some href;
                 tags := tags article |}
          end
      end
  end.

Definition fetchLatestArticles (limit : JSNumber) : list RektArticle :=
  match fetch_listing sw with
  | FetchRejected _ => []
  | ResponseNotOk _ => []
  | ResponseOk posts =>
      let articles := listing_articles 0 posts in
      let unique := uniqueArticles articles limit in
      let fullArticles := map fetchArticleContent unique in
      filter (fun article => 100 <? String.length (content article))
             fullArticles
  end.

End Scraper.

(** The articles of a list that are the first with their URL, given the
    URLs seen before the list. *)
Fixpoint keep_first (seen : list string) (articles : list RektArticle)
    : list RektArticle :=
  match articles with
  | [] => []
  | article :: rest =>
      if existsb (String.eqb (url article)) seen
      then keep_first (seen ++ [url article]) rest
      else article :: keep_first (seen ++ [url article]) rest
  end.

Fixpoint all_in_class (p : ascii -> bool) (s : string) : bool :=
  match s with
  | EmptyString => true
  | String c rest => p c && all_in_class p rest
  end.

(** ** index.ts: RektNostrMirror.run as a whole

    [run] above stops where the [try] block leaves the publisher; here is
    the block in full, over the scraper and the publisher. The converter's
    work before [extractLeadingImage] (cheerio and turndown) is the
    parameter [to_markdown]; it throws where [new URL] does. *)

Record MirrorConfig : Type := {
  mc_signerString : string;
  mc_articleLimit : JSNumber;
  mc_publishDelay : Z;
  mc_relays : option (list string);
  mc_dryRun : bool
}.

(** The console lines of [run] that the publisher model does not have. *)
Inductive MirrorLine : Type :=
| LineScraping
| LineNoArticles
| LineFound (n : nat)
| LineProcessing (i n : nat) (title : string)
| LineConverting
| LineTooShort
| LineConverted (characters : nat)
| LineExtractedImage (image : string)
| LinePreview (preview : string)
| LineNothingToPublish
| LineDryRun (n : nat)
| LineCandidate (i : nat) (title url : string)
| LinePublishingBatch (n : nat)
| LinePublished (n : nat)
| LineEventIds
| LineEventId (i : nat) (event_id : string).

Inductive MirrorEffect : Type :=
| Core (e : Effect)
| Line (l : MirrorLine).

Definition MM (A : Type) : Type := (Completion A * list MirrorEffect)%type.

Definition mm_ret {A} (a : A) : MM A := (Normal a, []).
Definition line (l : MirrorLine) : MM unit := (Normal tt, [Line l]).
Definition core {A} (m : M A) : MM A := (fst m, map Core (snd m)).

Definition mm_bind {A B} (m : MM A) (k : A -> MM B) : MM B :=
  match m with
  | (Normal a, t) => let (r, t') := k a in (r, t ++ t')
  | (Throw e, t) => (Throw e, t)
  | (Hang, t) => (Hang, t)
  end.

Definition mm_try_catch {A} (body : MM A) (handler : Thrown -> MM A) : MM A :=
  match body with
  | (Throw e, t) => let (r, t') := handler e in (r, t ++ t')
  | other => other
  end.

Notation "x <~ m ;; k" := (mm_bind m (fun x => k))
  (at level 61, m at next level, right associativity).
Notation "m ;;~ k" := (mm_bind m (fun _ => k))
  (at level 61, right associativity).

(** [lines.forEach((x, index) => console.log(...))]. *)
Fixpoint for_each_line {A} (f : nat -> A -> MirrorLine) (i : nat)
    (l : list A) : list MirrorEffect :=
  match l with
  | [] => []
  | a :: rest => Line (f i a) :: for_each_line f (S i) rest
  end.

Section Mirror.

Context (pf : Platform) (lib : SignerLib) (sw : ScrapeWorld)
        (to_markdown : string -> string -> Settled string)
        (worlds : nat -> World).

Definition convertRektArticle (html base : string) : MM ConversionResult :=
  match to_markdown html base with
  | inl e => (Throw e, [])
  | inr md => mm_ret (extractLeadingImage md)
  end.

(** The first 200 characters, with an ellipsis when there are more. *)
Definition preview_of (md : string) : string :=
  let more := if (200 <? String.length md)%nat then "..." else "" in
  (substring 0%nat 200%nat md ++ more)%string.

(** The loop that converts the articles, from index [i]; [n] is
    [articles.length]. No element of the array is [undefined], so the guard
    at the head of the loop body never fires. *)
Fixpoint process_articles (n i : nat) (articles : list RektArticle)
    (processedArticles : list (RektArticle * string))
    : MM (list (RektArticle * string)) :=
  match articles with
  | [] => mm_ret processedArticles
  | article :: rest =>
      line (LineProcessing (i + 1) n (title article)) ;;~
      line LineConverting ;;~
      result <~ convertRektArticle (content article) (url article) ;;
      if String.length (markdown result) <? 100 then
        line LineTooShort ;;~
        process_articles n (S i) rest processedArticles
      else
        line (LineConverted (String.length (markdown result))) ;;~
        updatedArticle <~
          match truthy (extractedImage result) with
          | Some extracted =>
              line (LineExtractedImage extracted) ;;~
              mm_ret {| title := title article;
                        url := url article;
                        content := content article;
                        publishedAt := publishedAt article;
                        summary := summary article;
                        image := Some extracted;
                        tags := tags article |}
          | None => mm_ret article
          end ;;
        line (LinePreview (preview_of (markdown result))) ;;~
        process_articles n (S i) rest
          (processedArticles ++ [(updatedArticle, markdown result)])
  end.

Definition RektNostrMirror_run (this : NIP23Publisher) (config : MirrorConfig)
    : MM unit :=
  core (log LogStarting) ;;~
  core (log (LogConfiguration (mc_dryRun config))) ;;~
  mm_try_catch
    (this' <~ (if negb (mc_dryRun config) then
                 core (log LogInitializing) ;;~
                 core (initialize lib this (mc_signerString config))
               else mm_ret this) ;;
     line LineScraping ;;~
     let articles := fetchLatestArticles pf sw (mc_articleLimit config) in
     match articles with
     | [] => line LineNoArticles
     | _ :: _ =>
         line (LineFound (length articles)) ;;~
         processedArticles <~
           process_articles (length articles) 0 articles [] ;;
         match processedArticles with
         | [] => line LineNothingToPublish
         | _ :: _ =>
             if mc_dryRun config then
               line (LineDryRun (length processedArticles)) ;;~
               (Normal tt,
                for_each_line
                  (fun index item =>
                     LineCandidate (index + 1) (title (fst item))
                                   (url (fst item)))
                  0 processedArticles)
             else
               line (LinePublishingBatch (length processedArticles)) ;;~
               let publishOptions :=
                 {| relays := mc_relays config;
                    signerString := mc_signerString config |} in
               eventIds <~
                 core (publishMultipleArticles pf this' processedArticles
                         publishOptions (mc_publishDelay config) worlds) ;;
               line (LinePublished (length eventIds)) ;;~
               line LineEventIds ;;~
               (Normal tt,
                for_each_line (fun index event_id =>
                                 LineEventId (index + 1) event_id)
                              0 eventIds)
         end
     end)
    (fun error =>
       core (log (LogFatal (error_text error))) ;;~
       core (match error with
             | ErrorObj _ => log LogStackTrace
             | NonError _ => ret tt
             end) ;;~
       core (emit (ProcessExit 1)) ;;~
       (Hang, [])).

End Mirror.

(** The effects of the publisher model in a trace of [run]. *)
Definition core_effects (t : list MirrorEffect) : list Effect :=
  flat_map (fun e => match e with Core c => [c] | Line _ => [] end) t.

(** The candidates a dry run lists. *)
Definition candidates (t : list MirrorEffect) : list (nat * string * string) :=
  flat_map
    (fun e =>
       match e with
       | Line (LineCandidate i title url) => [(i, title, url)]
       | _ => []
       end) t.

(** What [run] hands to the publisher for an article and its conversion. *)
Definition processed_item (article : RektArticle) (result : ConversionResult)
    : RektArticle * string :=
  ({| title := title article;
      url := url article;
      content := content article;
      publishedAt := publishedAt article;
      summary := summary article;
      image := match truthy (extractedImage result) with
               | Some extracted => Some extracted
               | None => image article
               end;
      tags := tags article |},
   markdown result).

(** The articles [run] keeps for publication when every conversion
    returns: those whose Markdown, after the leading image is taken out, has
    at least 100 characters, each with its extracted image. *)
Definition kept_items (to_markdown : string -> string -> Settled string)
    (articles : list RektArticle) : list (RektArticle * string) :=
  flat_map
    (fun article =>
       match to_markdown (content article) (url article) with
       | inr md =>
           let result := extractLeadingImage md in
           if String.length (markdown result) <? 100 then []
           else [processed_item article result]
       | inl _ => []
       end)
    articles.

(** The candidates of a list of items, numbered from [i + 1]. *)
Fixpoint numbered_candidates (i : nat) (items : list (RektArticle * string))
    : list (nat * string * string) :=
  match items with
  | [] => []
  | item :: rest =>
      (i + 1, title (fst item), url (fst item))
      :: numbered_candidates (S i) rest
  end.

(** ** Sample data for the further properties *)

Definition long_text : string :=
  String.concat "" (repeat "0123456789" 11).

Definition sample_post : PostView := {|
  post_href := Some "/big-hack";
  post_title := " Big Hack ";
  post_time := "2024-01-02";
  post_excerpt := " What happened ";
  post_tags := ["DeFi"; "Bridge"; "bridge "]
|}.

Definition sample_page : PageView := {|
  page_contents :=
    [ {| hit_found := false; hit_text := ""; hit_html := None |};
      {| hit_found := true; hit_text := long_text;
         hit_html := Some long_text |} ];
  page_h1 := "Big Hack";
  page_title := "";
  page_meta_description := Some "What happened";
  page_og_description := None;
  page_first_p := "";
  page_og_image := Some "/img.png";
  page_first_img := None;
  page_dates := []
|}.

Definition sample_scrape : ScrapeWorld := {|
  clock := fun _ => 1700000000000%Z;
  Date_parse := fun s =>
    if String.eqb s "2024-01-02" then Some 1704153600000%Z else None;
  URL_resolve := fun u _ => Some ("https://rekt.news" ++ u)%string;
  fetch_listing := ResponseOk [sample_post; sample_post];
  fetch_page := fun _ => ResponseOk sample_page
|}.

Definition offline_scrape : ScrapeWorld := {|
  clock := fun _ => 1700000000000%Z;
  Date_parse := fun _ => None;
  URL_resolve := fun _ _ => None;
  fetch_listing := ResponseNotOk 503;
  fetch_page := fun _ => FetchRejected (ErrorObj "offline")
|}.

(** The path of a URL on rekt.news. *)
Definition rekt_pathname (u : string) : option string :=
  if prefix "https://rekt.news" u then
    Some (or_else (substring 17 (String.length u - 17) u) "/")
  else None.

Definition rekt_platform : Platform := {|
  URL_pathname := rekt_pathname;
  toLowerCase := ascii_toLowerCase
|}.

(** A conversion that leads with an image. *)
Definition sample_to_markdown (html base : string) : Settled string :=
  inr ("![lead](https://rekt.news/lead.png) " ++ html)%string.

Definition dry_config : MirrorConfig := {|
  mc_signerString := "";
  mc_articleLimit := Finite (inject_Z 5);
  mc_publishDelay := 5000;
  mc_relays := None;
  mc_dryRun := true
|}.


Definition scraped_article : RektArticle := {|
  title := "Big Hack";
  url := "https://rekt.news/big-hack";
  content := long_text;
  publishedAt := 1704153600000;
  summary := Some "What happened";
  image := Some "https://rekt.news/img.png";
  tags := ["rekt"; "defi"; "security"; "bridge"]
|}.

(** ** Computations: basic facts *)

Lemma bind_normal {A B} (a : A) (t : list Effect) (k : A -> M B) :
  bind (Normal a, t) k = (fst (k a), t ++ snd (k a)).
Proof. unfold bind. destruct (k a); reflexivity. Qed.

Lemma bind_ret {A B} (a : A) (k : A -> M B) : bind (ret a) k = k a.
Proof. unfold ret. rewrite bind_normal. destruct (k a); reflexivity. Qed.

Lemma bind_emit {B} (e : Effect) (k : unit -> M B) :
  bind (emit e) k = (fst (k tt), e :: snd (k tt)).
Proof. unfold emit. rewrite bind_normal. reflexivity. Qed.

Lemma bind_throw {A B} (e : Thrown) (t : list Effect) (k : A -> M B) :
  bind (Throw e, t) k = (Throw e, t).
Proof. reflexivity. Qed.

(** ** Numbers *)

Lemma Math_floor_div (z d : Z) :
  Math_floor (inject_Z z / inject_Z d) = (z / d)%Z.
Proof. unfold Math_floor. symmetry. apply Zdiv_Qdiv. Qed.

Lemma Math_ceil_half (n : Z) :
  Math_ceil (inject_Z n / 2) = ((n + 1) / 2)%Z.
Proof.
  unfold Math_ceil, Qceiling, Qfloor, Qdiv, Qmult, Qopp, inject_Z, Qinv.
  cbn [Qnum Qden Z.opp].
  replace (Z.pos (1 * 2)) with 2%Z by reflexivity.
  rewrite Z.mul_1_r.
  pose proof (Z.div_mod (- n) 2 ltac:(lia)) as H1.
  pose proof (Z.mod_pos_bound (- n) 2 ltac:(lia)) as H2.
  pose proof (Z.div_mod (n + 1) 2 ltac:(lia)) as H3.
  pose proof (Z.mod_pos_bound (n + 1) 2 ltac:(lia)) as H4.
  lia.
Qed.

Lemma quorum_eq (relays : list string) :
  quorum relays = ((Z.of_nat (length relays) + 1) / 2)%Z.
Proof. unfold quorum. apply Math_ceil_half. Qed.

Lemma quorum_nonneg (relays : list string) : (0 <= quorum relays)%Z.
Proof. rewrite quorum_eq. apply Z.div_pos; lia. Qed.

(** C3. The quorum target of the confirmation wait is the ceiling of half
    the number of target relays: the least integer [q] with [n <= 2 q]; for
    1, 2, 3, 4 and 5 relays it is 1, 1, 2, 2 and 3. *)
Theorem quorum_is_ceiling_of_half :
  forall relays : list string,
    let n := Z.of_nat (length relays) in
    (n <= 2 * quorum relays < n + 2)%Z
    /\ (inject_Z (quorum relays - 1) < inject_Z n / 2)%Q
    /\ (inject_Z n / 2 <= inject_Z (quorum relays))%Q
    /\ (forall a b c d e : string,
          quorum [a] = 1%Z
          /\ quorum [a; b] = 1%Z
          /\ quorum [a; b; c] = 2%Z
          /\ quorum [a; b; c; d] = 2%Z
          /\ quorum [a; b; c; d; e] = 3%Z).
Proof.
  intros relays n. split; [| split; [| split]].
  - rewrite quorum_eq. fold n.
    pose proof (Z.div_mod (n + 1) 2 ltac:(lia)).
    pose proof (Z.mod_pos_bound (n + 1) 2 ltac:(lia)).
    lia.
  - unfold quorum, Math_ceil. fold n. apply Qceiling_lt.
  - unfold quorum, Math_ceil. fold n. apply Qle_ceiling.
  - intros. repeat split; reflexivity.
Qed.

(** ** Strings *)

Lemma substring_whole (s : string) : substring 0 (String.length s) s = s.
Proof. induction s as [| c r IH]; simpl; [reflexivity | now rewrite IH]. Qed.

Lemma replace_leading_slash_strips (s : string) :
  replace_leading_slash s = strip_one_leading_slash s.
Proof.
  destruct s as [| c r]; [reflexivity |].
  unfold replace_leading_slash, strip_one_leading_slash.
  cbn [prefix String.length].
  destruct (Ascii.eqb_spec c "/") as [-> | Hc].
  - simpl. rewrite Nat.sub_0_r, substring_whole. destruct r; reflexivity.
  - destruct (ascii_dec "/" c) as [E | _]; [congruence | reflexivity].
Qed.

Lemma get_S (n : nat) (c : ascii) (s : string) :
  get (S n) (String c s) = get n s.
Proof. reflexivity. Qed.

Lemma substring_0_S (n : nat) (c : ascii) (s : string) :
  substring 0 (S n) (String c s) = String c (substring 0 n s).
Proof. reflexivity. Qed.

Lemma replace_trailing_slash_cons (r : string) :
  forall c : ascii,
    replace_trailing_slash (String c r)
    = if match get (String.length r) (String c r) with
         | Some x => Ascii.eqb x "/"
         | None => false
         end
      then substring 0 (String.length r) (String c r)
      else String c r.
Proof.
  induction r as [| c' r' IH]; intro c.
  - simpl. destruct (Ascii.eqb c "/"); reflexivity.
  - replace (replace_trailing_slash (String c (String c' r')))
      with (String c (replace_trailing_slash (String c' r'))) by reflexivity.
    rewrite IH.
    change (String.length (String c' r')) with (S (String.length r')).
    rewrite get_S, substring_0_S.
    destruct (get (String.length r') (String c' r')) as [x |];
      [destruct (Ascii.eqb x "/") |]; reflexivity.
Qed.

Lemma replace_trailing_slash_strips (s : string) :
  replace_trailing_slash s = strip_one_trailing_slash s.
Proof.
  destruct s as [| c r]; [reflexivity |].
  unfold strip_one_trailing_slash, ends_with_slash.
  change (String.length (String c r) - 1) with (String.length r - 0).
  rewrite Nat.sub_0_r. apply replace_trailing_slash_cons.
Qed.

Lemma replace_trailing_slash_app (m : string) :
  replace_trailing_slash (m ++ "/")%string = m.
Proof.
  induction m as [| c r IH]; [reflexivity |].
  change ((String c r ++ "/")%string) with (String c (r ++ "/")%string).
  destruct (r ++ "/")%string as [| c' r'] eqn:E.
  - destruct r; discriminate.
  - replace (replace_trailing_slash (String c (String c' r')))
      with (String c (replace_trailing_slash (String c' r'))) by reflexivity.
    now rewrite IH.
Qed.

Lemma fold_left_push {A B} (f : A -> B) (l : list A) (init : list B) :
  fold_left (fun acc x => acc ++ [f x]) l init = init ++ map f l.
Proof.
  revert init. induction l as [| x l IH]; intro init; simpl.
  - now rewrite app_nil_r.
  - rewrite IH, <- app_assoc. reflexivity.
Qed.

Lemma optional_tag_truthy (name : string) (v : option string)
    (out : list (list string)) :
  match truthy v with
  | Some s => out ++ [[name; s]]
  | None => out
  end = out ++ optional_tag name v.
Proof.
  destruct v as [[| c r] |]; simpl; try reflexivity; now rewrite app_nil_r.
Qed.

Lemma optional_tag_not_d (name : string) (v : option string) :
  tag_named "d" [name; "x"] = false ->
  filter (tag_named "d") (optional_tag name v) = [].
Proof.
  intro H. destruct v as [[| c r] |]; simpl; try reflexivity.
  simpl in H. now rewrite H.
Qed.

Lemma topic_tags_not_d (f : string -> string) (l : list string) :
  filter (tag_named "d") (map (fun tag => ["t"; f tag]) l) = [].
Proof. induction l as [| t l IH]; simpl; [reflexivity | exact IH]. Qed.

(** ** Event builder *)

(** C6. The identifier is a pure, deterministic function of the URL: the
    path of the URL with one leading and one trailing slash stripped, or the
    fallback literal [article] when nothing is left; the path [/x/y/] gives
    [x/y], [/] gives the fallback, [/solo] gives [solo]. *)
Theorem createArticleId_strips_slashes :
  forall (pf : Platform) (url path : string),
    URL_pathname pf url = Some path ->
    let core := strip_one_trailing_slash (strip_one_leading_slash path) in
    createArticleId pf url
      = (Normal (if String.eqb core "" then fallback_identifier else core), [])
    /\ (forall m : string,
          path = ("/" ++ m ++ "/")%string ->
          createArticleId pf url
            = (Normal (if String.eqb m "" then "article" else m), []))
    /\ (path = "/x/y/" -> createArticleId pf url = (Normal "x/y", []))
    /\ (path = "/" -> createArticleId pf url = (Normal "article", []))
    /\ (path = "/solo" -> createArticleId pf url = (Normal "solo", []))
    /\ (forall url' : string,
          url' = url -> createArticleId pf url' = createArticleId pf url).
Proof.
  intros pf url path Hpath core.
  assert (Hgen : createArticleId pf url
            = (Normal (if String.eqb core "" then fallback_identifier
                       else core), [])).
  { unfold createArticleId, core. rewrite Hpath.
    rewrite replace_leading_slash_strips, replace_trailing_slash_strips.
    unfold ret, or_else, fallback_identifier.
    destruct (strip_one_trailing_slash (strip_one_leading_slash path));
      reflexivity. }
  split; [exact Hgen |].
  split.
  { intros m ->. unfold createArticleId. rewrite Hpath.
    change (replace_leading_slash ("/" ++ m ++ "/")%string)
      with (m ++ "/")%string.
    rewrite replace_trailing_slash_app. unfold ret, or_else.
    destruct m; reflexivity. }
  repeat split.
  - intros ->. exact Hgen.
  - intros ->. exact Hgen.
  - intros ->. exact Hgen.
  - intros url' ->. reflexivity.
Qed.

(** C7. The tag list is, in this order: [d] with the identifier, [title],
    [published_at] (the whole seconds of the timestamp, in decimal),
    [client], [r], then [summary] and [image] when present, one lower-cased
    [t] per topic tag, and the two [subject] tags; so its first entry is
    the [d] tag and no other entry is named [d]. *)
Theorem buildTags_in_order :
  forall (pf : Platform) (article : RektArticle) (articleId : string),
    buildTags pf article articleId
      = [ ["d"; articleId];
          ["title"; title article];
          ["published_at"; Number_toString (publishedAt article / 1000)%Z];
          ["client"; "rekt-nostr-mirror"];
          ["r"; url article] ]
        ++ optional_tag "summary" (summary article)
        ++ optional_tag "image" (image article)
        ++ map (fun tag => ["t"; toLowerCase pf tag]) (tags article)
        ++ [ ["subject"; "DeFi Security"]; ["subject"; "Blockchain"] ]
    /\ hd_error (buildTags pf article articleId) = Some ["d"; articleId]
    /\ filter (tag_named "d") (buildTags pf article articleId)
       = [ ["d"; articleId] ]
    /\ (1000 * (publishedAt article / 1000) <= publishedAt article
        < 1000 * (publishedAt article / 1000) + 1000)%Z.
Proof.
  intros pf article articleId.
  assert (Heq : buildTags pf article articleId
      = [ ["d"; articleId];
          ["title"; title article];
          ["published_at"; Number_toString (publishedAt article / 1000)%Z];
          ["client"; "rekt-nostr-mirror"];
          ["r"; url article] ]
        ++ optional_tag "summary" (summary article)
        ++ optional_tag "image" (image article)
        ++ map (fun tag => ["t"; toLowerCase pf tag]) (tags article)
        ++ [ ["subject"; "DeFi Security"]; ["subject"; "Blockchain"] ]).
  { unfold buildTags, published_at_value.
    rewrite !optional_tag_truthy, fold_left_push.
    change (1000%Q) with (inject_Z 1000). rewrite Math_floor_div.
    rewrite <- !app_assoc. reflexivity. }
  split; [exact Heq |]. split; [| split].
  - rewrite Heq. reflexivity.
  - rewrite Heq. rewrite !filter_app.
    rewrite !optional_tag_not_d by reflexivity.
    rewrite topic_tags_not_d. reflexivity.
  - pose proof (Z.div_mod (publishedAt article) 1000 ltac:(lia)).
    pose proof (Z.mod_pos_bound (publishedAt article) 1000 ltac:(lia)).
    lia.
Qed.

(** ** The confirmation wait: invariant and outcome *)

Section Wait.

Variable relays : list string.

Lemma event_loop_cons (cb : Callback) (queue : list Callback) (s : WaitState) :
  event_loop relays (cb :: queue) s
  = (fst (event_loop relays queue (fst (deliver relays s cb))),
     snd (deliver relays s cb)
       ++ snd (event_loop relays queue (fst (deliver relays s cb)))).
Proof.
  simpl. destruct (deliver relays s cb) as [s' t]. simpl.
  destruct (event_loop relays queue s'); reflexivity.
Qed.

Lemma event_loop_app (q1 q2 : list Callback) (s : WaitState) :
  event_loop relays (q1 ++ q2) s
  = (fst (event_loop relays q2 (fst (event_loop relays q1 s))),
     snd (event_loop relays q1 s)
       ++ snd (event_loop relays q2 (fst (event_loop relays q1 s)))).
Proof.
  revert s. induction q1 as [| cb q1 IH]; intro s.
  - simpl. destruct (event_loop relays q2 s); reflexivity.
  - rewrite <- app_comm_cons, !event_loop_cons, IH. simpl.
    now rewrite app_assoc.
Qed.

Lemma deliver_below_quorum (c : nat) (relay : string) :
  (Z.of_nat (S c) < quorum relays)%Z ->
  deliver relays (waiting c) (Next relay) = (waiting (S c), []).
Proof.
  intro H. unfold deliver, on_next, waiting. cbn [subscribed confirmations].
  destruct (Z.leb_spec (quorum relays) (Z.of_nat (S c))); [lia | reflexivity].
Qed.

Lemma deliver_reaching_quorum (c : nat) (relay : string) :
  (quorum relays <= Z.of_nat (S c))%Z ->
  deliver relays (waiting c) (Next relay)
  = (confirmed (S c),
     [ ClearTimeout; Unsubscribe;
       Console (LogConfirmed (S c) (length relays)); Resolve ]).
Proof.
  intro H. unfold deliver, on_next, waiting. cbn [subscribed confirmations].
  destruct (Z.leb_spec (quorum relays) (Z.of_nat (S c))); [reflexivity | lia].
Qed.

Lemma deliver_timer_due (c : nat) :
  deliver relays (waiting c) TimerDue
  = (timed_out c,
     [ Unsubscribe; Console (LogCompleted c (length relays)); Resolve ]).
Proof. reflexivity. Qed.

Lemma deliver_settled (s : WaitState) (cb : Callback) :
  subscribed s = false -> timeout s <> Armed ->
  deliver relays s cb = (s, []).
Proof.
  intros Hs Ht. destruct cb; simpl.
  - now rewrite Hs.
  - destruct (timeout s); congruence.
Qed.

Lemma event_loop_settled (queue : list Callback) (s : WaitState) :
  subscribed s = false -> timeout s <> Armed ->
  event_loop relays queue s = (s, []).
Proof.
  intros Hs Ht. induction queue as [| cb queue IH]; [reflexivity |].
  rewrite event_loop_cons, deliver_settled by assumption.
  simpl. now rewrite IH.
Qed.

Lemma wait_invariant_start : wait_invariant relays wait_start.
Proof. apply (inv_waiting relays 0). now left. Qed.

Lemma wait_invariant_deliver (s : WaitState) (cb : Callback) :
  wait_invariant relays s ->
  wait_invariant relays (fst (deliver relays s cb)).
Proof.
  intros [c Hc | c Hpos Hc | c Hc].
  - destruct cb as [relay |].
    + destruct (Z.leb_spec (quorum relays) (Z.of_nat (S c))) as [Hq | Hq].
      * rewrite deliver_reaching_quorum by exact Hq.
        apply inv_confirmed; [lia | exact Hq].
      * rewrite deliver_below_quorum by exact Hq.
        apply inv_waiting. now right.
    + rewrite deliver_timer_due. now apply inv_timed_out.
  - rewrite deliver_settled by (reflexivity || discriminate).
    now apply inv_confirmed.
  - rewrite deliver_settled by (reflexivity || discriminate).
    now apply inv_timed_out.
Qed.

Lemma wait_invariant_event_loop (queue : list Callback) (s : WaitState) :
  wait_invariant relays s ->
  wait_invariant relays (fst (event_loop relays queue s)).
Proof.
  revert s. induction queue as [| cb queue IH]; intros s H; [exact H |].
  rewrite event_loop_cons. simpl. apply IH. now apply wait_invariant_deliver.
Qed.

Lemma wait_invariant_reachable (s : WaitState) :
  reachable relays s -> wait_invariant relays s.
Proof.
  intros [queue <-]. apply wait_invariant_event_loop, wait_invariant_start.
Qed.

Lemma settling_count_pos : 0 < settling_count relays.
Proof. unfold settling_count. lia. Qed.

Lemma settling_count_quorum :
  (quorum relays <= Z.of_nat (settling_count relays))%Z.
Proof. unfold settling_count. lia. Qed.

(** Enough observations before the timer is due: the wait settles on the
    observation number [settling_count], whatever is delivered after it. *)
Lemma event_loop_confirms (arrivals : list string) (rest : list Callback) :
  forall c : nat,
    c = 0 \/ (Z.of_nat c < quorum relays)%Z ->
    settling_count relays <= c + length arrivals ->
    event_loop relays (map Next arrivals ++ rest) (waiting c)
    = (confirmed (settling_count relays),
       [ ClearTimeout; Unsubscribe;
         Console (LogConfirmed (settling_count relays) (length relays));
         Resolve ]).
Proof.
  unfold settling_count.
  induction arrivals as [| relay arrivals IH]; intros c Hc Hlen.
  - simpl in Hlen. lia.
  - cbn [map app]. rewrite event_loop_cons.
    destruct (Z.leb_spec (quorum relays) (Z.of_nat (S c))) as [Hq | Hq].
    + rewrite deliver_reaching_quorum by exact Hq. cbn [fst snd].
      rewrite event_loop_settled by (reflexivity || discriminate).
      cbn [fst snd]. rewrite app_nil_r.
      replace (Z.to_nat (Z.max 1 (quorum relays))) with (S c) by lia.
      reflexivity.
    + rewrite deliver_below_quorum by exact Hq. cbn [fst snd app].
      rewrite IH; [reflexivity | now right | simpl in Hlen; lia].
Qed.

(** Too few observations before the timer is due: the wait settles on the
    timer. *)
Lemma event_loop_times_out (arrivals : list string) :
  forall c : nat,
    c = 0 \/ (Z.of_nat c < quorum relays)%Z ->
    c + length arrivals < settling_count relays ->
    event_loop relays (map Next arrivals ++ [TimerDue]) (waiting c)
    = (timed_out (c + length arrivals),
       [ Unsubscribe;
         Console (LogCompleted (c + length arrivals) (length relays));
         Resolve ]).
Proof.
  unfold settling_count.
  induction arrivals as [| relay arrivals IH]; intros c Hc Hlen.
  - simpl. rewrite Nat.add_0_r. reflexivity.
  - cbn [map app]. rewrite event_loop_cons.
    simpl in Hlen.
    rewrite deliver_below_quorum by lia. cbn [fst snd app].
    rewrite IH; [| right; lia | lia].
    replace (S c + length arrivals) with (c + length (relay :: arrivals))
      by (simpl; lia).
    reflexivity.
Qed.

(** The wait as a whole: it always returns, and its trace says how. *)
Lemma waitForPublication_outcome (eventId : string) (arrivals : list string) :
  waitForPublication eventId relays arrivals
  = (Normal tt,
     [ Console LogWaiting; PoolSubscription relays [eventId]; SetTimeout 5000 ]
     ++ (if settling_count relays <=? length arrivals then
           [ ClearTimeout; Unsubscribe;
             Console (LogConfirmed (settling_count relays) (length relays));
             Resolve ]
         else
           [ Unsubscribe;
             Console (LogCompleted (length arrivals) (length relays));
             Resolve ])).
Proof.
  unfold waitForPublication, log. rewrite !bind_emit.
  destruct (Nat.leb_spec (settling_count relays) (length arrivals)) as [H | H].
  - change wait_start with (waiting 0).
    rewrite event_loop_confirms; [reflexivity | now left | simpl; lia].
  - change wait_start with (waiting 0).
    rewrite event_loop_times_out; [reflexivity | now left | simpl; lia].
Qed.

End Wait.

(** ** publishArticle *)

Section PublishArticle.

Context (pf : Platform) (this : NIP23Publisher) (article : RektArticle)
        (markdownContent : string) (options : PublishOptions) (w : World).

Arguments waitForPublication : simpl never.

Lemma publishArticle_published (s : ISigner) (articleId : string)
    (signedEvent : SignedEvent) :
  signer this = Some s ->
  createArticleId pf (url article) = (Normal articleId, []) ->
  signEvent s (article_event pf article articleId markdownContent w)
    = inr signedEvent ->
  pool_publish w (target_relays this options) signedEvent = inr tt ->
  publishArticle pf this article markdownContent options w
  = (Normal (id signedEvent),
     [ SignEvent (article_event pf article articleId markdownContent w);
       PoolPublish (target_relays this options) signedEvent;
       Console (LogPublished (title article));
       Console (LogEventId (id signedEvent));
       Console (LogArticleId articleId) ]
     ++ trace (waitForPublication (id signedEvent)
                 (target_relays this options) (observed w))).
Proof.
  intros Hs Hid Hsign Hpub. unfold publishArticle.
  rewrite Hs, Hid, bind_normal. cbn [app].
  unfold try_catch, await, log. rewrite Hsign, bind_normal, Hpub.
  rewrite bind_normal, !bind_emit.
  rewrite waitForPublication_outcome, bind_normal.
  unfold trace, ret. cbn [fst snd]. rewrite app_nil_r. reflexivity.
Qed.

Lemma publishArticle_settles :
  completion (publishArticle pf this article markdownContent options w)
  <> Hang.
Proof.
  unfold publishArticle, createArticleId.
  destruct (signer this) as [s |]; [| discriminate].
  destruct (URL_pathname pf (url article)) as [path |]; [| discriminate].
  rewrite bind_ret. unfold try_catch, await, log.
  destruct (signEvent s _) as [e | signedEvent].
  - rewrite bind_throw. destruct e; discriminate.
  - rewrite bind_normal.
    destruct (pool_publish w _ signedEvent) as [e | []].
    + rewrite bind_throw. destruct e; discriminate.
    + rewrite bind_normal, !bind_emit, waitForPublication_outcome,
        bind_normal. discriminate.
Qed.

Lemma publishArticle_no_pacing :
  pacing_of (trace (publishArticle pf this article markdownContent options w))
  = [].
Proof.
  unfold publishArticle, createArticleId.
  destruct (signer this) as [s |]; [| reflexivity].
  destruct (URL_pathname pf (url article)) as [path |]; [| reflexivity].
  rewrite bind_ret. unfold try_catch, await, log.
  destruct (signEvent s _) as [e | signedEvent].
  - rewrite bind_throw. destruct e; reflexivity.
  - rewrite bind_normal.
    destruct (pool_publish w _ signedEvent) as [e | []].
    + rewrite bind_throw. destruct e; reflexivity.
    + rewrite bind_normal, !bind_emit, waitForPublication_outcome,
        bind_normal.
      destruct (settling_count _ <=? _); reflexivity.
Qed.

End PublishArticle.

(** ** The batch loop *)

Lemma pacing_of_app (t1 t2 : list Effect) :
  pacing_of (t1 ++ t2) = pacing_of t1 ++ pacing_of t2.
Proof. unfold pacing_of. apply flat_map_app. Qed.

Section Batch.

Context (pf : Platform) (this : NIP23Publisher) (options : PublishOptions)
        (delayMs : Z) (worlds : nat -> World) (n : nat).

(** One turn of the loop on an item that is published. *)
Lemma publish_loop_published (i : nat) (article : RektArticle)
    (markdown : string) (rest : list (RektArticle * string))
    (eventIds : list string) (eventId : string) (t : list Effect) :
  publishArticle pf this article markdown options (worlds i)
    = (Normal eventId, t) ->
  publish_loop pf this options delayMs worlds n i
    ((article, markdown) :: rest) eventIds
  = (fst (publish_loop pf this options delayMs worlds n (S i) rest
            (eventIds ++ [eventId])),
     Console (LogPublishing (i + 1) n (title article))
     :: t
     ++ (if (Z.of_nat i <? Z.of_nat n - 1)%Z
         then [Console (LogPause delayMs); Sleep delayMs] else [])
     ++ snd (publish_loop pf this options delayMs worlds n (S i) rest
               (eventIds ++ [eventId]))).
Proof.
  intro H. cbn [publish_loop]. unfold log. rewrite bind_emit, H, bind_normal.
  destruct (Z.of_nat i <? Z.of_nat n - 1)%Z.
  - unfold emit, ret, bind, try_catch. cbn [fst snd].
    destruct (publish_loop pf this options delayMs worlds n (S i) rest
                (eventIds ++ [eventId])) as [r t'].
    cbn [fst snd app]. rewrite <- ?app_assoc, ?app_nil_r. reflexivity.
  - unfold emit, ret, bind, try_catch. cbn [fst snd].
    destruct (publish_loop pf this options delayMs worlds n (S i) rest
                (eventIds ++ [eventId])) as [r t'].
    cbn [fst snd app]. rewrite <- ?app_assoc, ?app_nil_r. reflexivity.
Qed.

(** One turn of the loop on an item whose publication throws. *)
Lemma publish_loop_failed (i : nat) (article : RektArticle)
    (markdown : string) (rest : list (RektArticle * string))
    (eventIds : list string) (e : Thrown) (t : list Effect) :
  publishArticle pf this article markdown options (worlds i)
    = (Throw e, t) ->
  publish_loop pf this options delayMs worlds n i
    ((article, markdown) :: rest) eventIds
  = (fst (publish_loop pf this options delayMs worlds n (S i) rest eventIds),
     Console (LogPublishing (i + 1) n (title article))
     :: t
     ++ match e with
        | ErrorObj message =>
            [Console (LogBatchItemFailed (title article) message)]
        | NonError _ => []
        end
     ++ snd (publish_loop pf this options delayMs worlds n (S i) rest
               eventIds)).
Proof.
  intro H. cbn [publish_loop]. unfold log. rewrite bind_emit, H, bind_throw.
  destruct e as [message | v].
  - unfold emit, ret, bind, try_catch. cbn [fst snd].
    destruct (publish_loop pf this options delayMs worlds n (S i) rest
                eventIds) as [r t'].
    cbn [fst snd app]. rewrite <- ?app_assoc, ?app_nil_r. reflexivity.
  - unfold emit, ret, bind, try_catch. cbn [fst snd].
    destruct (publish_loop pf this options delayMs worlds n (S i) rest
                eventIds) as [r t'].
    cbn [fst snd app]. rewrite <- ?app_assoc, ?app_nil_r. reflexivity.
Qed.

Lemma publish_loop_returns (articles : list (RektArticle * string)) :
  forall (i : nat) (eventIds : list string),
    completion (publish_loop pf this options delayMs worlds n i articles
                  eventIds)
    = Normal (eventIds ++ succeeded_ids pf this options worlds i articles).
Proof.
  induction articles as [| [article markdown] rest IH]; intros i eventIds.
  - simpl. now rewrite app_nil_r.
  - cbn [succeeded_ids]. unfold item_result, completion. cbn [fst snd].
    destruct (publishArticle pf this article markdown options (worlds i))
      as [[eventId | e |] t] eqn:E.
    + rewrite (publish_loop_published _ _ _ _ _ _ _ E). cbn [fst].
      fold (completion (publish_loop pf this options delayMs worlds n (S i)
                          rest (eventIds ++ [eventId]))).
      rewrite IH, <- app_assoc. reflexivity.
    + rewrite (publish_loop_failed _ _ _ _ _ _ _ E). cbn [fst].
      apply IH.
    + exfalso.
      apply (publishArticle_settles pf this article markdown options (worlds i)).
      unfold completion. now rewrite E.
Qed.

Lemma publish_loop_pacing (articles : list (RektArticle * string)) :
  forall (i : nat) (eventIds : list string),
    n = i + length articles ->
    pacing_of (trace (publish_loop pf this options delayMs worlds n i articles
                        eventIds))
    = pacing pf this options worlds delayMs i articles.
Proof.
  induction articles as [| [article markdown] rest IH];
    intros i eventIds Hn; [reflexivity |].
  cbn [pacing]. unfold item_result, completion, trace. cbn [fst snd].
  pose proof (publishArticle_no_pacing pf this article markdown options
                (worlds i)) as Hquiet.
  destruct (publishArticle pf this article markdown options (worlds i))
    as [[eventId | e |] t] eqn:E; unfold trace in Hquiet; cbn [snd] in Hquiet.
  - rewrite (publish_loop_published _ _ _ _ _ _ _ E). cbn [snd].
    change (Console (LogPublishing (i + 1) n (title article)) :: ?x)
      with ([Console (LogPublishing (i + 1) n (title article))] ++ x).
    rewrite !pacing_of_app, Hquiet.
    fold (trace (publish_loop pf this options delayMs worlds n (S i) rest
                   (eventIds ++ [eventId]))).
    rewrite IH by (simpl in Hn; lia).
    destruct rest as [| item rest'].
    + destruct (Z.ltb_spec (Z.of_nat i) (Z.of_nat n - 1));
        [simpl in Hn; lia | reflexivity].
    + destruct (Z.ltb_spec (Z.of_nat i) (Z.of_nat n - 1));
        [reflexivity | simpl in Hn; lia].
  - rewrite (publish_loop_failed _ _ _ _ _ _ _ E). cbn [snd].
    change (Console (LogPublishing (i + 1) n (title article)) :: ?x)
      with ([Console (LogPublishing (i + 1) n (title article))] ++ x).
    rewrite !pacing_of_app, Hquiet.
    fold (trace (publish_loop pf this options delayMs worlds n (S i) rest
                   eventIds)).
    rewrite IH by (simpl in Hn; lia).
    destruct e; reflexivity.
  - exfalso.
    apply (publishArticle_settles pf this article markdown options (worlds i)).
    unfold completion. now rewrite E.
Qed.

End Batch.

Lemma starts_pacing (pf : Platform) (this : NIP23Publisher)
    (options : PublishOptions) (worlds : nat -> World) (delayMs : Z)
    (articles : list (RektArticle * string)) :
  forall i : nat,
    starts (pacing pf this options worlds delayMs i articles)
    = seq (i + 1) (length articles).
Proof.
  induction articles as [| item rest IH]; intro i; [reflexivity |].
  cbn [pacing length seq]. unfold starts in *.
  cbn [flat_map app]. rewrite flat_map_app, IH.
  replace (S i + 1) with (S (i + 1)) by lia.
  destruct (item_result pf this options worlds i item), rest; reflexivity.
Qed.

Lemma succeeded_ids_length (pf : Platform) (this : NIP23Publisher)
    (options : PublishOptions) (worlds : nat -> World)
    (articles : list (RektArticle * string)) :
  forall i : nat,
    length (succeeded_ids pf this options worlds i articles)
    <= length articles.
Proof.
  induction articles as [| item rest IH]; intro i; [reflexivity |].
  cbn [succeeded_ids length].
  destruct (item_result pf this options worlds i item); simpl;
    specialize (IH (S i)); lia.
Qed.

Lemma publishMultipleArticles_unfold (pf : Platform) (this : NIP23Publisher)
    (articles : list (RektArticle * string)) (options : PublishOptions)
    (delayMs : Z) (worlds : nat -> World) :
  publishMultipleArticles pf this articles options delayMs worlds
  = (completion (publish_loop pf this options delayMs worlds
                   (length articles) 0 articles []),
     Console (LogBatchStart (length articles) delayMs)
     :: trace (publish_loop pf this options delayMs worlds
                 (length articles) 0 articles [])).
Proof. unfold publishMultipleArticles, log. now rewrite bind_emit. Qed.

Lemma publishMultipleArticles_pacing (pf : Platform) (this : NIP23Publisher)
    (articles : list (RektArticle * string)) (options : PublishOptions)
    (delayMs : Z) (worlds : nat -> World) :
  pacing_of (trace (publishMultipleArticles pf this articles options
                      delayMs worlds))
  = pacing pf this options worlds delayMs 0 articles.
Proof.
  rewrite publishMultipleArticles_unfold. unfold trace at 1. cbn [snd].
  change (pacing_of
            ([Console (LogBatchStart (length articles) delayMs)]
             ++ trace (publish_loop pf this options delayMs worlds
                         (length articles) 0 articles []))
          = pacing pf this options worlds delayMs 0 articles).
  rewrite pacing_of_app. cbn [pacing_of flat_map app].
  now apply publish_loop_pacing.
Qed.

(** C4. The batch goes through its items in order, from the first to the
    last; an item whose publication throws is skipped and the loop goes on;
    the batch returns the identifiers of the items that were published, in
    the order of the items, so possibly fewer than there are items. *)
Theorem publishMultipleArticles_skips_failed_items :
  forall (pf : Platform) (this : NIP23Publisher)
         (articles : list (RektArticle * string)) (options : PublishOptions)
         (delayMs : Z) (worlds : nat -> World),
    completion (publishMultipleArticles pf this articles options delayMs worlds)
    = Normal (succeeded_ids pf this options worlds 0 articles)
    /\ starts (pacing_of (trace (publishMultipleArticles pf this articles
                                   options delayMs worlds)))
       = seq 1 (length articles)
    /\ length (succeeded_ids pf this options worlds 0 articles)
       <= length articles
    /\ completion
         (publishMultipleArticles sample_platform
            (publisher_with (signer_refusing "two")) three_articles two_relays
            5000 (fun _ => calm_world ["wss://a"]))
       = Normal ["id:one"; "id:three"].
Proof.
  intros. split; [| split; [| split]].
  - rewrite publishMultipleArticles_unfold. unfold completion at 1.
    cbn [fst]. now rewrite publish_loop_returns.
  - rewrite publishMultipleArticles_pacing.
    apply (starts_pacing pf this options worlds delayMs articles 0).
  - apply succeeded_ids_length.
  - vm_compute. reflexivity.
Qed.

(** C5 as the code has it. A sleep of the configured delay (5000 ms by
    default) follows an item exactly when that item was published and is
    not the last one; after an item that failed the next item starts with
    no sleep, and nothing else in the batch sleeps. *)
Theorem publishMultipleArticles_sleeps_after_published_items :
  forall (pf : Platform) (this : NIP23Publisher)
         (articles : list (RektArticle * string)) (options : PublishOptions)
         (delayMs : Z) (worlds : nat -> World),
    pacing_of (trace (publishMultipleArticles pf this articles options
                        delayMs worlds))
    = pacing pf this options worlds delayMs 0 articles
    /\ default_delayMs = 5000%Z.
Proof.
  intros. split; [| reflexivity]. apply publishMultipleArticles_pacing.
Qed.

(** C5 as stated fails: in a batch of two whose first item cannot be
    signed, the second item starts with no sleep before it. *)
Lemma no_sleep_after_failed_item :
  pacing_of (trace (publishMultipleArticles sample_platform
                      (publisher_with (signer_refusing "one")) two_articles
                      two_relays 5000 (fun _ => calm_world ["wss://a"])))
  = [inl 1; inl 2]
  /\ pacing_every_gap 5000 0 two_articles = [inl 1; inr 5000%Z; inl 2]
  /\ pacing_of (trace (publishMultipleArticles sample_platform
                         (publisher_with (signer_refusing "one")) two_articles
                         two_relays 5000 (fun _ => calm_world ["wss://a"])))
     <> pacing_every_gap 5000 0 two_articles.
Proof.
  split; [| split].
  - vm_compute. reflexivity.
  - reflexivity.
  - vm_compute. discriminate.
Qed.

(** ** The confirmation wait: the specification's properties *)

Lemma reachable_cases (relays : list string) (s : WaitState) :
  reachable relays s ->
  (exists c, s = waiting c)
  \/ (exists c, s = confirmed c)
  \/ (exists c, s = timed_out c).
Proof.
  intro H. apply wait_invariant_reachable in H.
  destruct H as [c _ | c _ _ | c _]; eauto.
Qed.

Lemma event_loop_timers_only (relays : list string) (queue : list Callback) :
  (forall r, ~ In (Next r) queue) ->
  event_loop relays queue wait_start
  = match queue with
    | [] => (wait_start, [])
    | _ :: _ =>
        (timed_out 0,
         [Unsubscribe; Console (LogCompleted 0 (length relays)); Resolve])
    end.
Proof.
  intro H. destruct queue as [| [r |] queue]; [reflexivity | |].
  - exfalso. apply (H r). now left.
  - rewrite event_loop_cons. change wait_start with (waiting 0).
    rewrite deliver_timer_due. cbn [fst snd].
    rewrite event_loop_settled by (reflexivity || discriminate).
    reflexivity.
Qed.

(** C1. On the observation that brings the counter to the quorum target the
    callback clears the timer, unsubscribes and resolves, and what the event
    loop delivers afterwards (further relays, the timer) changes nothing;
    a wait that has settled, by the quorum or by the timer, holds no open
    subscription. *)
Theorem wait_settles_at_quorum_and_unsubscribes :
  forall relays : list string,
    (forall s : WaitState,
        reachable relays s ->
        (promise s = Pending -> subscribed s = true /\ timeout s = Armed)
        /\ (promise s <> Pending ->
            promise s = Fulfilled /\ subscribed s = false
            /\ timeout s <> Armed
            /\ forall queue, event_loop relays queue s = (s, []))
        /\ (forall relay : string,
              promise s = Pending ->
              (quorum relays <= Z.of_nat (S (confirmations s)))%Z ->
              deliver relays s (Next relay)
              = (confirmed (S (confirmations s)),
                 [ ClearTimeout; Unsubscribe;
                   Console (LogConfirmed (S (confirmations s))
                              (length relays));
                   Resolve ]))
        /\ (promise s = Pending ->
            deliver relays s TimerDue
            = (timed_out (confirmations s),
               [ Unsubscribe;
                 Console (LogCompleted (confirmations s) (length relays));
                 Resolve ])))
    /\ (forall (eventId : string) (arrivals : list string),
          settling_count relays <= length arrivals ->
          event_loop relays
            (map Next (firstn (settling_count relays) arrivals)) wait_start
          = (confirmed (settling_count relays),
             [ ClearTimeout; Unsubscribe;
               Console (LogConfirmed (settling_count relays) (length relays));
               Resolve ])
          /\ waitForPublication eventId relays arrivals
             = (Normal tt,
                [ Console LogWaiting; PoolSubscription relays [eventId];
                  SetTimeout 5000; ClearTimeout; Unsubscribe;
                  Console (LogConfirmed (settling_count relays)
                             (length relays));
                  Resolve ]))
    /\ (forall (eventId : string) (arrivals : list string),
          completion (waitForPublication eventId relays arrivals) = Normal tt
          /\ In Unsubscribe
               (trace (waitForPublication eventId relays arrivals))).
Proof.
  intro relays. split; [| split].
  - intros s Hs. destruct (reachable_cases relays s Hs) as [[c ->] | [[c ->] | [c ->]]].
    + split; [intros _; split; reflexivity |].
      split; [intro H; exfalso; apply H; reflexivity |].
      split.
      * intros relay _ Hq. now apply deliver_reaching_quorum.
      * intros _. apply deliver_timer_due.
    + split; [discriminate |].
      split; [| split; discriminate].
      intros _. repeat split; try discriminate.
      intro queue. apply event_loop_settled; [reflexivity | discriminate].
    + split; [discriminate |].
      split; [| split; discriminate].
      intros _. repeat split; try discriminate.
      intro queue. apply event_loop_settled; [reflexivity | discriminate].
  - intros eventId arrivals Hlen. split.
    + rewrite <- (app_nil_r (map Next _)). change wait_start with (waiting 0).
      apply event_loop_confirms; [now left |].
      rewrite length_firstn. simpl. lia.
    + rewrite waitForPublication_outcome.
      destruct (Nat.leb_spec (settling_count relays) (length arrivals));
        [reflexivity | lia].
  - intros eventId arrivals. rewrite waitForPublication_outcome.
    split; [reflexivity |]. unfold trace. cbn [snd].
    destruct (settling_count relays <=? length arrivals); simpl; tauto.
Qed.

(** C2. The promise of the wait is never rejected; when the timer comes due
    before the quorum target is reached, with any number of observations and
    also with none, the callback unsubscribes and resolves; so the wait
    always returns normally and [publishArticle] returns the identifier
    whatever was observed. *)
Theorem wait_never_rejects :
  forall relays : list string,
    (forall s : WaitState,
        reachable relays s ->
        (forall e : Thrown, promise s <> Rejected e)
        /\ (promise s = Pending ->
            deliver relays s TimerDue
            = (timed_out (confirmations s),
               [ Unsubscribe;
                 Console (LogCompleted (confirmations s) (length relays));
                 Resolve ])))
    /\ (forall (eventId : string) (arrivals : list string),
          completion (waitForPublication eventId relays arrivals) = Normal tt)
    /\ (forall (eventId : string) (arrivals : list string),
          length arrivals < settling_count relays ->
          waitForPublication eventId relays arrivals
          = (Normal tt,
             [ Console LogWaiting; PoolSubscription relays [eventId];
               SetTimeout 5000; Unsubscribe;
               Console (LogCompleted (length arrivals) (length relays));
               Resolve ]))
    /\ (forall eventId : string,
          waitForPublication eventId relays []
          = (Normal tt,
             [ Console LogWaiting; PoolSubscription relays [eventId];
               SetTimeout 5000; Unsubscribe;
               Console (LogCompleted 0 (length relays));
               Resolve ]))
    /\ (forall (pf : Platform) (this : NIP23Publisher) (article : RektArticle)
               (markdownContent : string) (options : PublishOptions)
               (w : World) (s : ISigner) (articleId : string)
               (signedEvent : SignedEvent),
          target_relays this options = relays ->
          signer this = Some s ->
          createArticleId pf (url article) = (Normal articleId, []) ->
          signEvent s (article_event pf article articleId markdownContent w)
            = inr signedEvent ->
          pool_publish w relays signedEvent = inr tt ->
          completion (publishArticle pf this article markdownContent options w)
          = Normal (id signedEvent)).
Proof.
  intro relays. split; [| split; [| split; [| split]]].
  - intros s Hs.
    destruct (reachable_cases relays s Hs) as [[c ->] | [[c ->] | [c ->]]];
      (split; [discriminate |]); try discriminate.
    intros _. apply deliver_timer_due.
  - intros. now rewrite waitForPublication_outcome.
  - intros eventId arrivals Hlen. rewrite waitForPublication_outcome.
    destruct (Nat.leb_spec (settling_count relays) (length arrivals));
      [lia | reflexivity].
  - intro eventId. rewrite waitForPublication_outcome.
    pose proof (settling_count_pos relays).
    destruct (Nat.leb_spec (settling_count relays) (@length string []));
      [simpl in *; lia | reflexivity].
  - intros pf this article markdownContent options w s articleId signedEvent
           Hr Hs Hid Hsign Hpub.
    rewrite <- Hr in Hpub.
    now rewrite (publishArticle_published pf this article markdownContent
                   options w s articleId signedEvent Hs Hid Hsign Hpub).
Qed.

(** C9. With no signer attached, [publishArticle] throws the "not
    initialized" error at once: nothing is built, signed, broadcast or
    waited for, and nothing is printed. *)
Theorem publishArticle_requires_initialize :
  forall (pf : Platform) (this : NIP23Publisher) (article : RektArticle)
         (markdownContent : string) (options : PublishOptions) (w : World),
    signer this = None ->
    completion (publishArticle pf this article markdownContent options w)
    = Throw (ErrorObj "Publisher not initialized. Call initialize() first.")
    /\ trace (publishArticle pf this article markdownContent options w) = [].
Proof.
  intros pf this article markdownContent options w H.
  unfold publishArticle. rewrite H. split; reflexivity.
Qed.

(** C10. An empty [options.relays] is used as it is, the default relays
    being taken only when [options.relays] is absent: the event is broadcast
    to no relay, the quorum target is 0, and the wait, pending although the
    counter is not below the target, settles when the timer comes due. *)
Theorem empty_relay_list_waits_for_timeout :
  forall (pf : Platform) (this : NIP23Publisher) (article : RektArticle)
         (markdownContent : string) (options : PublishOptions) (w : World)
         (s : ISigner) (articleId : string) (signedEvent : SignedEvent),
    relays options = Some [] ->
    signer this = Some s ->
    createArticleId pf (url article) = (Normal articleId, []) ->
    signEvent s (article_event pf article articleId markdownContent w)
      = inr signedEvent ->
    pool_publish w [] signedEvent = inr tt ->
    (forall r : string, In r (observed w) -> In r []) ->
    target_relays this options = []
    /\ publishArticle pf this article markdownContent options w
       = (Normal (id signedEvent),
          [ SignEvent (article_event pf article articleId markdownContent w);
            PoolPublish [] signedEvent;
            Console (LogPublished (title article));
            Console (LogEventId (id signedEvent));
            Console (LogArticleId articleId);
            Console LogWaiting;
            PoolSubscription [] [id signedEvent];
            SetTimeout 5000;
            Unsubscribe;
            Console (LogCompleted 0 0);
            Resolve ])
    /\ quorum [] = 0%Z
    /\ promise wait_start = Pending
    /\ (quorum [] <= Z.of_nat (confirmations wait_start))%Z
    /\ (forall queue : list Callback,
          (forall r : string, ~ In (Next r) queue) ->
          (promise (fst (event_loop [] queue wait_start)) = Fulfilled
           <-> In TimerDue queue))
    /\ (forall options' : PublishOptions,
          relays options' = None ->
          target_relays this options' = defaultRelays this)
    /\ (forall (options' : PublishOptions) (rs : list string),
          relays options' = Some rs -> target_relays this options' = rs).
Proof.
  intros pf this article markdownContent options w s articleId signedEvent
         Hrelays Hs Hid Hsign Hpub Hobs.
  assert (Ht : target_relays this options = [])
    by (unfold target_relays; now rewrite Hrelays).
  assert (Harr : observed w = []).
  { destruct (observed w) as [| r l]; [reflexivity |].
    destruct (Hobs r). now left. }
  split; [exact Ht |]. split.
  { rewrite <- Ht in Hpub.
    rewrite (publishArticle_published pf this article markdownContent options
               w s articleId signedEvent Hs Hid Hsign Hpub).
    rewrite Ht, Harr, waitForPublication_outcome. reflexivity. }
  split; [reflexivity |]. split; [reflexivity |]. split; [reflexivity |].
  split; [| split].
  - intros queue Hq. rewrite event_loop_timers_only by exact Hq.
    destruct queue as [| cb queue]; cbn [fst promise wait_start timed_out].
    + split; [discriminate | intros []].
    + split; [| reflexivity]. intros _. destruct cb as [r |].
      * exfalso. apply (Hq r). now left.
      * now left.
  - intros options' H. unfold target_relays. now rewrite H.
  - intros options' rs H. unfold target_relays. now rewrite H.
Qed.

(** ** Signer creation and initialization *)

Lemma createSigner_dispatch (lib : SignerLib) (signerString : string) :
  createSigner lib signerString
  = if startsWith signerString "nsec" then
      s <- await (FromKey signerString)
                 (PrivateKeySigner_fromKey lib signerString) ;;
      await GetPublicKey (getPublicKey s) ;;; ret s
    else if startsWith signerString "ncryptsec" then
      (Throw (ErrorObj "Ncryptsec signers are not supported"), [])
    else if startsWith signerString "bunker://" then
      s <- (emit BindPoolMethods ;;;
            await (FromBunkerURI signerString)
                  (NostrConnectSigner_fromBunkerURI lib signerString)) ;;
      await GetPublicKey (getPublicKey s) ;;; ret s
    else
      (Throw (ErrorObj (invalid_signer_message signerString)), []).
Proof.
  unfold createSigner.
  destruct (startsWith signerString "nsec"); [reflexivity |].
  destruct (startsWith signerString "ncryptsec"); [reflexivity |].
  destruct (startsWith signerString "bunker://"); reflexivity.
Qed.



(** A thrown [Error] leaves [initialize] wrapped with context. *)
Lemma initialize_wraps_errors (lib : SignerLib) (this : NIP23Publisher)
    (signerString message : string) (t : list Effect) :
  createSigner lib signerString = (Throw (ErrorObj message), t) ->
  initialize lib this signerString
  = (Throw (ErrorObj ("Failed to initialize signer: " ++ message)), t).
Proof.
  intro H. unfold initialize. rewrite H, bind_throw.
  unfold try_catch, throw. now rewrite app_nil_r.
Qed.

(** ... and ends the run with exit code 1. *)
Lemma run_exits_on_initialize_error (lib : SignerLib) (this : NIP23Publisher)
    (config : Config) (rest : NIP23Publisher -> M unit) (message : string)
    (t : list Effect) :
  dryRun config = false ->
  createSigner lib (cfg_signerString config) = (Throw (ErrorObj message), t) ->
  run lib this config rest
  = (Hang,
     [ Console LogStarting; Console (LogConfiguration false);
       Console LogInitializing ]
     ++ t
     ++ [ Console (LogFatal ("Failed to initialize signer: " ++ message));
          Console LogStackTrace;
          ProcessExit 1 ]).
Proof.
  intros Hdry H. unfold run. rewrite Hdry. cbn [negb]. unfold log.
  rewrite !bind_emit, (initialize_wraps_errors _ _ _ _ _ H). reflexivity.
Qed.


(** C8, where the code departs from it. A bunker whose refusal reaches
    [createSigner] as a rejection with a value that is not an [Error]:
    [initialize] catches it, throws nothing and leaves the signer unset; the
    run goes on, every article then fails with "not initialized" inside the
    batch loop, and the process is not ended. Had the library rejected with
    an [Error], the run would have ended with exit code 1. *)
Theorem initialize_swallows_plain_rejection :
  createSigner lib_rejecting_plainly "bunker://x"
  = (Throw (NonError "denied"), [BindPoolMethods; FromBunkerURI "bunker://x"])
  /\ initialize lib_rejecting_plainly new_NIP23Publisher "bunker://x"
     = (Normal new_NIP23Publisher,
        [BindPoolMethods; FromBunkerURI "bunker://x"])
  /\ run lib_rejecting_plainly new_NIP23Publisher bunker_config
       (fun this =>
          publishMultipleArticles sample_platform this two_articles
            two_relays 5000 (fun _ => calm_world ["wss://a"]) ;;;
          ret tt)
     = (Normal tt,
        [ Console LogStarting;
          Console (LogConfiguration false);
          Console LogInitializing;
          BindPoolMethods;
          FromBunkerURI "bunker://x";
          Console (LogBatchStart 2 5000);
          Console (LogPublishing 1 2 "/one");
          Console (LogBatchItemFailed "/one"
                     "Publisher not initialized. Call initialize() first.");
          Console (LogPublishing 2 2 "/two");
          Console (LogBatchItemFailed "/two"
                     "Publisher not initialized. Call initialize() first.") ])
  /\ run lib_rejecting_with_error new_NIP23Publisher bunker_config
       (fun this =>
          publishMultipleArticles sample_platform this two_articles
            two_relays 5000 (fun _ => calm_world ["wss://a"]) ;;;
          ret tt)
     = (Hang,
        [ Console LogStarting;
          Console (LogConfiguration false);
          Console LogInitializing;
          BindPoolMethods;
          FromBunkerURI "bunker://x";
          Console (LogFatal "Failed to initialize signer: no route");
          Console LogStackTrace;
          ProcessExit 1 ]).
Proof. repeat split; vm_compute; reflexivity. Qed.

(** ** The theorems at concrete inputs *)

Lemma createArticleId_strips_slashes_witness :
  URL_pathname sample_platform "https://site/x/y/" = Some "/x/y/"
  /\ createArticleId sample_platform "https://site/x/y/" = (Normal "x/y", []).
Proof.
  split; [reflexivity |].
  destruct (createArticleId_strips_slashes sample_platform
              "https://site/x/y/" "/x/y/" eq_refl) as (_ & _ & H & _).
  apply H. reflexivity.
Defined.

Lemma wait_settles_at_quorum_and_unsubscribes_witness :
  reachable ["wss://a"; "wss://b"; "wss://c"] (waiting 1)
  /\ deliver ["wss://a"; "wss://b"; "wss://c"] (waiting 1) (Next "wss://b")
     = (confirmed 2,
        [ClearTimeout; Unsubscribe; Console (LogConfirmed 2 3); Resolve])
  /\ waitForPublication "e" ["wss://a"; "wss://b"; "wss://c"]
       ["wss://c"; "wss://a"; "wss://b"]
     = (Normal tt,
        [ Console LogWaiting;
          PoolSubscription ["wss://a"; "wss://b"; "wss://c"] ["e"];
          SetTimeout 5000; ClearTimeout; Unsubscribe;
          Console (LogConfirmed 2 3); Resolve ]).
Proof.
  assert (Hreach : reachable ["wss://a"; "wss://b"; "wss://c"] (waiting 1))
    by (exists [Next "wss://a"]; reflexivity).
  destruct (wait_settles_at_quorum_and_unsubscribes
              ["wss://a"; "wss://b"; "wss://c"]) as (H1 & H2 & _).
  split; [exact Hreach |]. split.
  - destruct (H1 (waiting 1) Hreach) as (_ & _ & H & _).
    apply (H "wss://b"); [reflexivity | vm_compute; discriminate].
  - destruct (H2 "e" ["wss://c"; "wss://a"; "wss://b"]) as (_ & H).
    + vm_compute. lia.
    + exact H.
Defined.

Lemma wait_never_rejects_witness :
  reachable ["wss://a"; "wss://b"; "wss://c"] (waiting 1)
  /\ deliver ["wss://a"; "wss://b"; "wss://c"] (waiting 1) TimerDue
     = (timed_out 1,
        [Unsubscribe; Console (LogCompleted 1 3); Resolve])
  /\ waitForPublication "e" ["wss://a"; "wss://b"; "wss://c"] ["wss://c"]
     = (Normal tt,
        [ Console LogWaiting;
          PoolSubscription ["wss://a"; "wss://b"; "wss://c"] ["e"];
          SetTimeout 5000; Unsubscribe;
          Console (LogCompleted 1 3); Resolve ])
  /\ completion
       (publishArticle sample_platform (publisher_with (signer_refusing ""))
          (article_at "/one") "# one" two_relays (calm_world []))
     = Normal "id:one".
Proof.
  assert (Hreach : reachable ["wss://a"; "wss://b"; "wss://c"] (waiting 1))
    by (exists [Next "wss://a"]; reflexivity).
  split; [exact Hreach |]. split; [| split].
  - destruct (wait_never_rejects ["wss://a"; "wss://b"; "wss://c"])
      as (H1 & _).
    destruct (H1 (waiting 1) Hreach) as (_ & H). apply H. reflexivity.
  - destruct (wait_never_rejects ["wss://a"; "wss://b"; "wss://c"])
      as (_ & _ & H & _).
    apply (H "e" ["wss://c"]). vm_compute. lia.
  - destruct (wait_never_rejects ["wss://a"; "wss://b"]) as (_ & _ & _ & _ & H).
    apply (H sample_platform (publisher_with (signer_refusing ""))
             (article_at "/one") "# one" two_relays (calm_world [])
             (signer_refusing "") "one"
             (sign_as (article_event sample_platform (article_at "/one")
                         "one" "# one" (calm_world []))));
      reflexivity.
Defined.

Lemma publishArticle_requires_initialize_witness :
  signer new_NIP23Publisher = None
  /\ publishArticle sample_platform new_NIP23Publisher (article_at "/one")
       "# one" two_relays (calm_world ["wss://a"])
     = (Throw (ErrorObj "Publisher not initialized. Call initialize() first."),
        []).
Proof.
  split; [reflexivity |].
  destruct (publishArticle_requires_initialize sample_platform
              new_NIP23Publisher (article_at "/one") "# one" two_relays
              (calm_world ["wss://a"]) eq_refl) as (Hc & Ht).
  unfold completion in Hc. unfold trace in Ht.
  destruct (publishArticle sample_platform new_NIP23Publisher
              (article_at "/one") "# one" two_relays (calm_world ["wss://a"]))
    as [r t].
  cbn [fst snd] in Hc, Ht. now rewrite Hc, Ht.
Defined.

Lemma empty_relay_list_waits_for_timeout_witness :
  relays no_relays = Some []
  /\ observed (calm_world []) = []
  /\ trace (publishArticle sample_platform
              (publisher_with (signer_refusing "")) (article_at "/one")
              "# one" no_relays (calm_world []))
     = [ SignEvent (article_event sample_platform (article_at "/one") "one"
                      "# one" (calm_world []));
         PoolPublish []
           (sign_as (article_event sample_platform (article_at "/one") "one"
                       "# one" (calm_world [])));
         Console (LogPublished "/one");
         Console (LogEventId "id:one");
         Console (LogArticleId "one");
         Console LogWaiting;
         PoolSubscription [] ["id:one"];
         SetTimeout 5000;
         Unsubscribe;
         Console (LogCompleted 0 0);
         Resolve ].
Proof.
  split; [reflexivity |]. split; [reflexivity |].
  destruct (empty_relay_list_waits_for_timeout sample_platform
              (publisher_with (signer_refusing "")) (article_at "/one")
              "# one" no_relays (calm_world []) (signer_refusing "") "one"
              (sign_as (article_event sample_platform (article_at "/one")
                          "one" "# one" (calm_world []))))
    as (_ & H & _);
    [reflexivity | reflexivity | reflexivity | reflexivity | reflexivity
    | intros r Hr; exact Hr |].
  rewrite H. reflexivity.
Defined.

(** * Further properties of the code *)

(** ** The confirmation wait under any schedule *)

Section WaitSchedules.

Variable relays : list string.

(** Whatever the event loop delivers, and in whatever order, the wait is in
    one of three situations, each with its own trace. *)
Lemma event_loop_outcomes (queue : list Callback) :
  forall c : nat,
    c = 0 \/ (Z.of_nat c < quorum relays)%Z ->
    (exists c', (c' = 0 \/ (Z.of_nat c' < quorum relays)%Z)
                /\ event_loop relays queue (waiting c) = (waiting c', []))
    \/ event_loop relays queue (waiting c)
       = (confirmed (settling_count relays),
          [ ClearTimeout; Unsubscribe;
            Console (LogConfirmed (settling_count relays) (length relays));
            Resolve ])
    \/ (exists c', (c' = 0 \/ (Z.of_nat c' < quorum relays)%Z)
                   /\ event_loop relays queue (waiting c)
                      = (timed_out c',
                         [ Unsubscribe;
                           Console (LogCompleted c' (length relays));
                           Resolve ])).
Proof.
  induction queue as [| cb queue IH]; intros c Hc.
  - left. exists c. split; [exact Hc | reflexivity].
  - rewrite event_loop_cons. destruct cb as [relay |].
    + destruct (Z.leb_spec (quorum relays) (Z.of_nat (S c))) as [Hq | Hq].
      * right; left. rewrite deliver_reaching_quorum by exact Hq.
        cbn [fst snd].
        rewrite event_loop_settled by (reflexivity || discriminate).
        cbn [fst snd]. rewrite app_nil_r.
        replace (settling_count relays) with (S c)
          by (unfold settling_count; lia).
        reflexivity.
      * rewrite deliver_below_quorum by exact Hq. cbn [fst snd app].
        destruct (IH (S c)) as [(c' & Hc' & E) | [E | (c' & Hc' & E)]];
          [now right | | |].
        -- left. exists c'. rewrite E. auto.
        -- right; left. now rewrite E.
        -- right; right. exists c'. rewrite E. auto.
    + right; right. exists c. split; [exact Hc |].
      rewrite deliver_timer_due. cbn [fst snd].
      rewrite event_loop_settled by (reflexivity || discriminate).
      reflexivity.
Qed.

(** X1. Whatever is delivered to the wait, and in whatever order, the
    promise is resolved at most once and the subscription is released
    exactly as often; the timer is cleared at most once, and only when the
    promise is resolved. *)
Theorem wait_resolves_at_most_once :
  forall queue : list Callback,
    let t := snd (event_loop relays queue wait_start) in
    count is_resolve t <= 1
    /\ count is_unsubscribe t = count is_resolve t
    /\ count is_clear_timeout t <= count is_resolve t
    /\ (count is_resolve t = 1
        <-> promise (fst (event_loop relays queue wait_start)) = Fulfilled).
Proof.
  intros queue t. subst t. change wait_start with (waiting 0).
  destruct (event_loop_outcomes queue 0 (or_introl eq_refl))
    as [(c' & _ & E) | [E | (c' & _ & E)]]; rewrite E; cbn.
  - repeat split; try lia; discriminate.
  - repeat split; lia.
  - repeat split; lia.
Qed.

(** X2. The counter never passes the count at which the wait settles, the
    larger of 1 and the quorum target; so a wait never reports more
    confirmations than that, however many relays answer. *)
Theorem wait_counter_is_bounded :
  forall queue : list Callback,
    confirmations (fst (event_loop relays queue wait_start))
    <= settling_count relays
    /\ Forall (fun c => c <= settling_count relays)
         (reported_confirmations (snd (event_loop relays queue wait_start))).
Proof.
  intro queue. change wait_start with (waiting 0).
  pose proof (settling_count_quorum relays) as Hq.
  pose proof (settling_count_pos relays) as Hpos.
  destruct (event_loop_outcomes queue 0 (or_introl eq_refl))
    as [(c' & Hc' & E) | [E | (c' & Hc' & E)]]; rewrite E; cbn.
  - split; [unfold settling_count in *; lia | constructor].
  - split; [lia | repeat constructor].
  - split; [unfold settling_count in *; lia |].
    repeat constructor. unfold settling_count in *. lia.
Qed.

(** X3. The wait counts observations, not relays: its outcome depends only
    on how many observations arrive before the timer is due. The same relay
    seen again and again, or a relay that is not in the list, confirms the
    publication. *)
Theorem wait_counts_observations_not_relays :
  forall eventId : string,
    (forall arrivals arrivals' : list string,
        length arrivals = length arrivals' ->
        waitForPublication eventId relays arrivals
        = waitForPublication eventId relays arrivals')
    /\ (forall relay : string,
          waitForPublication eventId relays
            (repeat relay (settling_count relays))
          = (Normal tt,
             [ Console LogWaiting; PoolSubscription relays [eventId];
               SetTimeout 5000; ClearTimeout; Unsubscribe;
               Console (LogConfirmed (settling_count relays) (length relays));
               Resolve ])).
Proof.
  intro eventId. split.
  - intros arrivals arrivals' Hlen.
    now rewrite !waitForPublication_outcome, Hlen.
  - intro relay.
    now rewrite waitForPublication_outcome, repeat_length, Nat.leb_refl.
Qed.

End WaitSchedules.

(** ** publishArticle: failures *)

Section PublishFailures.

Context (pf : Platform) (this : NIP23Publisher) (article : RektArticle)
        (markdownContent : string) (options : PublishOptions) (w : World).

Arguments waitForPublication : simpl never.

(** X4. What the signer or the pool throws leaves [publishArticle] as it
    is, not wrapped; an [Error] is printed first, another value is not.
    When signing fails nothing is broadcast, and when the broadcast fails no
    subscription is opened. A URL that does not parse throws before the
    signer is asked, with no line printed. *)
Theorem publishArticle_rethrows_unchanged :
  forall s : ISigner,
    signer this = Some s ->
    (URL_pathname pf (url article) = None ->
     exists message,
       publishArticle pf this article markdownContent options w
       = (Throw (ErrorObj message), []))
    /\ (forall (articleId : string) (e : Thrown),
          createArticleId pf (url article) = (Normal articleId, []) ->
          signEvent s (article_event pf article articleId markdownContent w)
            = inl e ->
          publishArticle pf this article markdownContent options w
          = (Throw e,
             SignEvent (article_event pf article articleId markdownContent w)
             :: match e with
                | ErrorObj message => [Console (LogPublishFailed message)]
                | NonError _ => []
                end))
    /\ (forall (articleId : string) (signedEvent : SignedEvent) (e : Thrown),
          createArticleId pf (url article) = (Normal articleId, []) ->
          signEvent s (article_event pf article articleId markdownContent w)
            = inr signedEvent ->
          pool_publish w (target_relays this options) signedEvent = inl e ->
          publishArticle pf this article markdownContent options w
          = (Throw e,
             [ SignEvent (article_event pf article articleId markdownContent w);
               PoolPublish (target_relays this options) signedEvent ]
             ++ match e with
                | ErrorObj message => [Console (LogPublishFailed message)]
                | NonError _ => []
                end)).
Proof.
  intros s Hs. split; [| split].
  - intro Hurl. exists "Invalid URL". unfold publishArticle, createArticleId.
    now rewrite Hs, Hurl.
  - intros articleId e Hid Hsign. unfold publishArticle.
    rewrite Hs, Hid, bind_normal. cbn [app].
    unfold try_catch, await. rewrite Hsign, bind_throw.
    destruct e; reflexivity.
  - intros articleId signedEvent e Hid Hsign Hpub. unfold publishArticle.
    rewrite Hs, Hid, bind_normal. cbn [app].
    unfold try_catch, await. rewrite Hsign, bind_normal, Hpub, bind_throw.
    destruct e; reflexivity.
Qed.

(** X5. A call of [publishArticle] that throws has opened no subscription
    and armed no timer; a call that returns has resolved its wait once and
    released its subscription once. *)
Theorem publishArticle_waits_only_when_published :
  (forall e : Thrown,
      completion (publishArticle pf this article markdownContent options w)
      = Throw e ->
      filter is_wait_effect
        (trace (publishArticle pf this article markdownContent options w))
      = [])
  /\ (forall eventId : string,
        completion (publishArticle pf this article markdownContent options w)
        = Normal eventId ->
        count is_resolve
          (trace (publishArticle pf this article markdownContent options w))
        = 1
        /\ count is_unsubscribe
             (trace (publishArticle pf this article markdownContent options w))
           = 1
        /\ exists signedEvent,
             id signedEvent = eventId
             /\ In (PoolPublish (target_relays this options) signedEvent)
                  (trace (publishArticle pf this article markdownContent
                            options w))
             /\ In (PoolSubscription (target_relays this options) [eventId])
                  (trace (publishArticle pf this article markdownContent
                            options w))).
Proof.
  unfold publishArticle, createArticleId.
  destruct (signer this) as [s |];
    [| split; [reflexivity | discriminate]].
  destruct (URL_pathname pf (url article)) as [path |];
    [| split; [reflexivity | discriminate]].
  rewrite bind_ret. unfold try_catch, await, log.
  destruct (signEvent s _) as [e | signedEvent].
  - rewrite bind_throw. split; [| destruct e; discriminate].
    intros _ _. destruct e; reflexivity.
  - rewrite bind_normal.
    destruct (pool_publish w _ signedEvent) as [e | []].
    + rewrite bind_throw. split; [| destruct e; discriminate].
      intros _ _. destruct e; reflexivity.
    + rewrite bind_normal, !bind_emit, waitForPublication_outcome,
        bind_normal.
      split; [discriminate |].
      unfold completion, trace, ret. cbn [fst snd]. intros eventId [= <-].
      destruct (settling_count _ <=? _); cbn.
      * repeat split; try reflexivity. exists signedEvent. tauto.
      * repeat split; try reflexivity. exists signedEvent. tauto.
Qed.

Lemma publishArticle_no_failed_line :
  filter is_item_failed_line
    (trace (publishArticle pf this article markdownContent options w))
  = [].
Proof.
  unfold publishArticle, createArticleId.
  destruct (signer this) as [s |]; [| reflexivity].
  destruct (URL_pathname pf (url article)) as [path |]; [| reflexivity].
  rewrite bind_ret. unfold try_catch, await, log.
  destruct (signEvent s _) as [e | signedEvent].
  - rewrite bind_throw. destruct e; reflexivity.
  - rewrite bind_normal.
    destruct (pool_publish w _ signedEvent) as [e | []].
    + rewrite bind_throw. destruct e; reflexivity.
    + rewrite bind_normal, !bind_emit, waitForPublication_outcome,
        bind_normal.
      destruct (settling_count _ <=? _); reflexivity.
Qed.

End PublishFailures.

(** ** The batch loop: further properties *)

Section BatchFurther.

Context (pf : Platform) (this : NIP23Publisher) (options : PublishOptions)
        (delayMs : Z) (worlds : nat -> World).

Lemma publish_loop_without_signer (n : nat)
    (articles : list (RektArticle * string)) :
  signer this = None ->
  forall (i : nat) (eventIds : list string),
    publish_loop pf this options delayMs worlds n i articles eventIds
    = (Normal eventIds,
       not_initialized_lines n (combine (seq i (length articles)) articles)).
Proof.
  intro Hs. induction articles as [| [article markdown] rest IH];
    intros i eventIds; [reflexivity |].
  assert (E : publishArticle pf this article markdown options (worlds i)
              = (Throw (ErrorObj
                   "Publisher not initialized. Call initialize() first."), []))
    by (unfold publishArticle; now rewrite Hs).
  rewrite (publish_loop_failed pf this options delayMs worlds n i article
             markdown rest eventIds _ _ E).
  rewrite IH. reflexivity.
Qed.

(** X6. With no signer attached the batch still goes through every item:
    each one fails with the "not initialized" error, which the loop prints
    and passes over; the batch returns the empty list, having signed,
    broadcast and slept nothing. *)
Theorem publishMultipleArticles_without_signer :
  forall articles : list (RektArticle * string),
    signer this = None ->
    publishMultipleArticles pf this articles options delayMs worlds
    = (Normal [],
       Console (LogBatchStart (length articles) delayMs)
       :: not_initialized_lines (length articles)
            (combine (seq 0 (length articles)) articles)).
Proof.
  intros articles Hs. rewrite publishMultipleArticles_unfold.
  now rewrite publish_loop_without_signer.
Qed.

Lemma sleeps_pacing_bounds (articles : list (RektArticle * string)) :
  forall i : nat,
    length (sleeps (pacing pf this options worlds delayMs i articles))
    <= length (succeeded_ids pf this options worlds i articles)
    /\ length (sleeps (pacing pf this options worlds delayMs i articles))
       <= length articles - 1
    /\ Forall (eq delayMs)
         (sleeps (pacing pf this options worlds delayMs i articles)).
Proof.
  induction articles as [| item rest IH]; intro i.
  - repeat split; simpl; auto.
  - destruct (IH (S i)) as (H1 & H2 & H3).
    cbn [pacing succeeded_ids length]. unfold sleeps in *.
    cbn [flat_map app]. rewrite flat_map_app, length_app.
    destruct (item_result pf this options worlds i item) as [eventId | e |];
      destruct rest as [| item' rest']; cbn [flat_map app length] in *;
      repeat split; try lia; try apply Forall_app; auto.
Qed.

(** X7. The batch sleeps at most once for each published item and at most
    [n - 1] times for [n] items, each time for the configured delay; a batch
    in which nothing is published does not sleep at all. *)
Theorem publishMultipleArticles_sleeps_are_bounded :
  forall articles : list (RektArticle * string),
    let naps :=
      sleeps (pacing_of (trace (publishMultipleArticles pf this articles
                                  options delayMs worlds))) in
    length naps <= length (succeeded_ids pf this options worlds 0 articles)
    /\ length naps <= length articles - 1
    /\ Forall (eq delayMs) naps.
Proof.
  intros articles naps. subst naps. rewrite publishMultipleArticles_pacing.
  apply sleeps_pacing_bounds.
Qed.

Lemma publish_loop_failed_lines (n : nat)
    (articles : list (RektArticle * string)) :
  forall (i : nat) (eventIds : list string),
    count is_item_failed_line
      (trace (publish_loop pf this options delayMs worlds n i articles
                eventIds))
    = failed_with_error pf this options worlds i articles.
Proof.
  unfold count.
  induction articles as [| [article markdown] rest IH]; intros i eventIds;
    [reflexivity |].
  cbn [failed_with_error]. unfold item_result, completion, trace.
  cbn [fst snd].
  pose proof (publishArticle_no_failed_line pf this article markdown options
                (worlds i)) as Hquiet.
  destruct (publishArticle pf this article markdown options (worlds i))
    as [[eventId | e |] t] eqn:E; unfold trace in Hquiet; cbn [snd] in Hquiet.
  - rewrite (publish_loop_published _ _ _ _ _ _ _ _ _ _ _ _ _ E). cbn [snd].
    cbn [filter is_item_failed_line]. rewrite !filter_app, Hquiet.
    cbn [app].
    replace (filter is_item_failed_line
               (if (Z.of_nat i <? Z.of_nat n - 1)%Z
                then [Console (LogPause delayMs); Sleep delayMs] else []))
      with (@nil Effect) by (destruct (Z.of_nat i <? Z.of_nat n - 1)%Z;
                             reflexivity).
    cbn [fst]. apply IH.
  - rewrite (publish_loop_failed _ _ _ _ _ _ _ _ _ _ _ _ _ E). cbn [snd].
    cbn [filter is_item_failed_line]. rewrite !filter_app, Hquiet.
    cbn [app]. destruct e as [message | v]; cbn [filter is_item_failed_line app length].
    + cbn [fst]. f_equal. apply IH.
    + cbn [fst]. apply IH.
  - exfalso.
    apply (publishArticle_settles pf this article markdown options (worlds i)).
    unfold completion. now rewrite E.
Qed.

(** X8. The batch prints one failure line for each item that failed with an
    [Error]; an item that failed with another thrown value is passed over
    without a line. *)
Theorem publishMultipleArticles_failure_lines :
  forall articles : list (RektArticle * string),
    count is_item_failed_line
      (trace (publishMultipleArticles pf this articles options delayMs worlds))
    = failed_with_error pf this options worlds 0 articles
    /\ failed_with_error pf this options worlds 0 articles
       + length (succeeded_ids pf this options worlds 0 articles)
       <= length articles.
Proof.
  intro articles. split.
  - rewrite publishMultipleArticles_unfold. unfold trace at 1. cbn [snd].
    unfold count. cbn [filter is_item_failed_line].
    apply (publish_loop_failed_lines (length articles) articles 0 []).
  - generalize 0. induction articles as [| item rest IH]; intro i;
      [reflexivity |].
    cbn [failed_with_error succeeded_ids length]. specialize (IH (S i)).
    destruct (item_result pf this options worlds i item) as [? | [? | ?] |];
      cbn [length]; lia.
Qed.

End BatchFurther.

(** ** The event builder: further properties *)

Lemma replace_trailing_slash_keeps (s : string) :
  ends_with_slash s = false -> replace_trailing_slash s = s.
Proof.
  intro H. rewrite replace_trailing_slash_strips.
  unfold strip_one_trailing_slash. now rewrite H.
Qed.

Lemma ends_with_slash_cons (c : ascii) (r : string) :
  r <> EmptyString -> ends_with_slash (String c r) = ends_with_slash r.
Proof.
  intro H. destruct r as [| c' r']; [congruence |].
  unfold ends_with_slash. cbn [String.length].
  rewrite !Nat.sub_succ, !Nat.sub_0_r, get_S. reflexivity.
Qed.

Lemma buildTags_closed_form (pf : Platform) (article : RektArticle)
    (articleId : string) :
  buildTags pf article articleId
  = [ ["d"; articleId];
      ["title"; title article];
      ["published_at"; Number_toString (publishedAt article / 1000)%Z];
      ["client"; "rekt-nostr-mirror"];
      ["r"; url article] ]
    ++ optional_tag "summary" (summary article)
    ++ optional_tag "image" (image article)
    ++ map (fun tag => ["t"; toLowerCase pf tag]) (tags article)
    ++ [ ["subject"; "DeFi Security"]; ["subject"; "Blockchain"] ].
Proof.
  unfold buildTags, published_at_value.
  rewrite !optional_tag_truthy, fold_left_push.
  change (1000%Q) with (inject_Z 1000). rewrite Math_floor_div.
  rewrite <- !app_assoc. reflexivity.
Qed.

(** X9. The identifier is never the empty string, and deriving it has no
    effect; so every event carries a [d] tag with a value. *)
Theorem createArticleId_is_never_empty :
  forall (pf : Platform) (url articleId : string) (t : list Effect),
    createArticleId pf url = (Normal articleId, t) ->
    articleId <> EmptyString /\ t = [].
Proof.
  intros pf url articleId t. unfold createArticleId.
  destruct (URL_pathname pf url) as [path |]; [| discriminate].
  unfold ret, or_else. intros [= <- <-]. split; [| reflexivity].
  destruct (replace_trailing_slash (replace_leading_slash path));
    discriminate.
Qed.

(** X10. Two URLs whose paths differ only by a final slash get the same
    identifier, so publishing one replaces the event of the other. *)
Theorem createArticleId_ignores_final_slash :
  forall (pf : Platform) (url1 url2 path : string),
    URL_pathname pf url1 = Some path ->
    URL_pathname pf url2 = Some (path ++ "/")%string ->
    ends_with_slash path = false ->
    createArticleId pf url1 = createArticleId pf url2.
Proof.
  intros pf url1 url2 path H1 H2 Hend. unfold createArticleId.
  rewrite H1, H2. f_equal. f_equal.
  destruct path as [| c r]; [reflexivity |].
  change ((String c r ++ "/")%string) with (String c (r ++ "/")%string).
  unfold replace_leading_slash.
  destruct (Ascii.eqb_spec c "/") as [-> | Hc].
  - rewrite replace_trailing_slash_app. apply replace_trailing_slash_keeps.
    destruct r as [| c' r']; [discriminate Hend |].
    now rewrite ends_with_slash_cons in Hend by discriminate.
  - change (String c (r ++ "/")%string) with ((String c r ++ "/")%string).
    rewrite replace_trailing_slash_app.
    now apply replace_trailing_slash_keeps.
Qed.

(** X11. Every entry of the tag list is a pair of a name and a value, and
    the list has seven entries plus one for a summary, one for an image and
    one for each topic tag: topic tags are neither merged nor dropped. *)
Theorem buildTags_entries_are_pairs :
  forall (pf : Platform) (article : RektArticle) (articleId : string),
    Forall (fun entry => length entry = 2) (buildTags pf article articleId)
    /\ length (buildTags pf article articleId)
       = 7 + length (optional_tag "summary" (summary article))
           + length (optional_tag "image" (image article))
           + length (tags article)
    /\ length (optional_tag "summary" (summary article)) <= 1
    /\ length (optional_tag "image" (image article)) <= 1.
Proof.
  intros pf article articleId.
  rewrite buildTags_closed_form. split; [| split; [| split]].
  - repeat (apply Forall_app; split); repeat constructor.
    + destruct (summary article) as [[| c r] |]; repeat constructor.
    + destruct (image article) as [[| c r] |]; repeat constructor.
    + induction (tags article); repeat constructor; assumption.
  - rewrite !length_app, length_map. simpl. lia.
  - destruct (summary article) as [[| c r] |]; simpl; lia.
  - destruct (image article) as [[| c r] |]; simpl; lia.
Qed.

(** ** Signer creation and initialization: further properties *)


(** X12. A signer that [createSigner] returns was built by the class its
    prefix selects, in one call, and has given its public key; a signer
    whose public key cannot be fetched is never returned. *)
Theorem createSigner_returns_validated_signers :
  forall (lib : SignerLib) (signerString : string) (s : ISigner)
         (t : list Effect),
    createSigner lib signerString = (Normal s, t) ->
    (exists publicKey, getPublicKey s = inr publicKey)
    /\ ((startsWith signerString "nsec" = true
         /\ PrivateKeySigner_fromKey lib signerString = inr s
         /\ t = [FromKey signerString; GetPublicKey])
        \/ (startsWith signerString "nsec" = false
            /\ startsWith signerString "ncryptsec" = false
            /\ startsWith signerString "bunker://" = true
            /\ NostrConnectSigner_fromBunkerURI lib signerString = inr s
            /\ t = [ BindPoolMethods; FromBunkerURI signerString;
                     GetPublicKey ])).
Proof.
  intros lib signerString s t. rewrite createSigner_dispatch.
  destruct (startsWith signerString "nsec").
  - destruct (PrivateKeySigner_fromKey lib signerString) as [e | s0];
      [discriminate |].
    unfold await, bind, ret.
    destruct (getPublicKey s0) as [e | publicKey] eqn:Hpk; [discriminate |].
    intros [= <- <-].
    split; [now exists publicKey | left; auto].
  - destruct (startsWith signerString "ncryptsec"); [discriminate |].
    destruct (startsWith signerString "bunker://"); [| discriminate].
    destruct (NostrConnectSigner_fromBunkerURI lib signerString) as [e | s0];
      [discriminate |].
    unfold await, bind, ret, emit.
    destruct (getPublicKey s0) as [e | publicKey] eqn:Hpk; [discriminate |].
    intros [= <- <-].
    split; [now exists publicKey | right; auto 6].
Qed.




(** ** Strings: white space, splitting, searching *)

Lemma trimStart_app (ws s : string) :
  all_whitespace ws = true -> trimStart (ws ++ s)%string = trimStart s.
Proof.
  induction ws as [| c r IH]; intro H; [reflexivity |].
  simpl in H. apply andb_true_iff in H as [Hc Hr].
  simpl. rewrite Hc. now apply IH.
Qed.

Lemma trimStart_split (s : string) :
  exists ws, all_whitespace ws = true /\ s = (ws ++ trimStart s)%string.
Proof.
  induction s as [| c r (ws & Hws & E)].
  - now exists EmptyString.
  - simpl. destruct (is_whitespace c) eqn:Hc.
    + exists (String c ws). simpl. rewrite Hc, Hws. split; [reflexivity |].
      now rewrite <- E.
    + now exists EmptyString.
Qed.

Lemma strip_prefix_app (p s : string) :
  strip_prefix p (p ++ s)%string = Some s.
Proof.
  induction p as [| a p IH]; [now destruct s |].
  simpl. now rewrite Ascii.eqb_refl.
Qed.

Lemma strip_prefix_sound (p s r : string) :
  strip_prefix p s = Some r -> s = (p ++ r)%string.
Proof.
  revert s. induction p as [| a p IH]; intros s H.
  - destruct s; now inversion H.
  - destruct s as [| b s]; [discriminate |]. simpl in H.
    destruct (Ascii.eqb_spec a b) as [-> | _]; [| discriminate].
    simpl. f_equal. now apply IH.
Qed.

Lemma take_until_app (stop : ascii) (before after : string) :
  lacks stop before = true ->
  take_until stop (before ++ String stop after)%string = Some (before, after).
Proof.
  induction before as [| c r IH]; intro H.
  - simpl. now rewrite Ascii.eqb_refl.
  - simpl in H. apply andb_true_iff in H as [Hc Hr].
    simpl. apply negb_true_iff in Hc. rewrite Hc. now rewrite IH.
Qed.

Lemma take_until_sound (stop : ascii) (s before after : string) :
  take_until stop s = Some (before, after) ->
  lacks stop before = true /\ s = (before ++ String stop after)%string.
Proof.
  revert before. induction s as [| c r IH]; intros before H; [discriminate |].
  simpl in H. destruct (Ascii.eqb_spec c stop) as [-> | Hc].
  - inversion H. subst. now split.
  - destruct (take_until stop r) as [[b a] |]; [| discriminate].
    inversion H. subst. destruct (IH b eq_refl) as [Hl E].
    simpl. split.
    + rewrite Hl. apply Ascii.eqb_neq in Hc. now rewrite Hc.
    + now rewrite <- E.
Qed.

Lemma line_end_group_is_whitespace (s after : string) :
  line_end_group s = Some after -> trimStart after = trimStart s.
Proof.
  revert after. induction s as [| c r IH]; intros after H; [discriminate |].
  simpl in H. destruct (is_whitespace c) eqn:Hc; [| discriminate].
  simpl. rewrite Hc.
  destruct (line_end_group r) as [a |].
  - inversion H. subst. now apply IH.
  - destruct (Ascii.eqb c newline); [| discriminate]. now inversion H.
Qed.

Lemma split_on_nonempty (sep : ascii) (s : string) : split_on sep s <> [].
Proof.
  destruct s as [| c r]; [discriminate |]. simpl.
  destruct (Ascii.eqb c sep); [discriminate |].
  destruct (split_on sep r); discriminate.
Qed.

Lemma split_on_pieces_lack (sep : ascii) (s : string) :
  Forall (fun piece => lacks sep piece = true) (split_on sep s).
Proof.
  induction s as [| c r IH]; [repeat constructor |].
  simpl. destruct (Ascii.eqb c sep) eqn:Hc.
  - now constructor.
  - destruct (split_on sep r) as [| piece pieces]; [repeat constructor |].
    + simpl. now rewrite Hc.
    + inversion IH. subst. constructor; [| assumption].
      simpl. rewrite Hc. assumption.
Qed.

Lemma split_on_lacking (sep : ascii) (s : string) :
  lacks sep s = true -> split_on sep s = [s].
Proof.
  induction s as [| c r IH]; intro H; [reflexivity |].
  simpl in H. apply andb_true_iff in H as [Hc Hr].
  apply negb_true_iff in Hc. simpl. rewrite Hc, IH by assumption.
  reflexivity.
Qed.

Lemma split_on_app (sep : ascii) (piece rest : string) :
  lacks sep piece = true ->
  split_on sep (piece ++ String sep rest)%string = piece :: split_on sep rest.
Proof.
  induction piece as [| c r IH]; intro H.
  - simpl. now rewrite Ascii.eqb_refl.
  - simpl in H. apply andb_true_iff in H as [Hc Hr].
    apply negb_true_iff in Hc.
    change ((String c r ++ String sep rest)%string)
      with (String c (r ++ String sep rest)%string).
    cbn [split_on]. rewrite Hc, IH by assumption. reflexivity.
Qed.

(** Joining pieces that lack the separator and splitting again gives the
    pieces back. *)
Lemma split_on_concat (sep : ascii) (pieces : list string) :
  pieces <> [] ->
  Forall (fun piece => lacks sep piece = true) pieces ->
  split_on sep (String.concat (String sep "") pieces) = pieces.
Proof.
  induction pieces as [| piece rest IH]; intros Hne Hall; [congruence |].
  inversion Hall as [| ? ? Hpiece Hrest]. subst.
  destruct rest as [| piece' rest'].
  - simpl. now apply split_on_lacking.
  - change (String.concat (String sep "") (piece :: piece' :: rest'))
      with (piece ++ String sep ""
              ++ String.concat (String sep "") (piece' :: rest'))%string.
    change (String sep "" ++ String.concat (String sep "") (piece' :: rest'))%string
      with (String sep (String.concat (String sep "") (piece' :: rest'))).
    rewrite split_on_app by assumption.
    f_equal. apply IH; [discriminate | assumption].
Qed.

(** ** The Markdown converter *)

Lemma extractLeadingImage_matches (ws alt target rest : string) :
  all_whitespace ws = true ->
  lacks "]" alt = true ->
  lacks ")" target = true ->
  target <> EmptyString ->
  extractLeadingImage
    (ws ++ "![" ++ alt ++ "](" ++ target ++ ")" ++ rest)%string
  = {| markdown := trim rest; extractedImage := Some target |}.
Proof.
  intros Hws Halt Htarget Hne. unfold extractLeadingImage, imageRegex.
  rewrite trimStart_app by exact Hws.
  change (trimStart ("![" ++ alt ++ "](" ++ target ++ ")" ++ rest)%string)
    with ("![" ++ alt ++ "](" ++ target ++ ")" ++ rest)%string.
  rewrite strip_prefix_app.
  change (alt ++ "](" ++ target ++ ")" ++ rest)%string
    with (alt ++ String "]" ("(" ++ target ++ ")" ++ rest))%string.
  rewrite take_until_app by exact Halt.
  rewrite strip_prefix_app.
  change (target ++ ")" ++ rest)%string
    with (target ++ String ")" rest)%string.
  rewrite take_until_app by exact Htarget.
  destruct target as [| c u]; [congruence |].
  destruct (line_end_group rest) as [after |] eqn:E; [| reflexivity].
  unfold trim. now rewrite (line_end_group_is_whitespace rest after E).
Qed.

(** X15. When the Markdown starts, after any white space, with an image
    whose alternative text has no closing bracket and whose target is not
    empty and has no closing parenthesis, [extractLeadingImage] gives the
    target as the image and the rest of the text, trimmed, as the Markdown. *)
Theorem extractLeadingImage_takes_the_leading_image :
  forall ws alt target rest : string,
    all_whitespace ws = true ->
    lacks "]" alt = true ->
    lacks ")" target = true ->
    target <> EmptyString ->
    extractLeadingImage
      (ws ++ "![" ++ alt ++ "](" ++ target ++ ")" ++ rest)%string
    = {| markdown := trim rest; extractedImage := Some target |}.
Proof. exact extractLeadingImage_matches. Qed.

(** X16. Conversely, an image is extracted only from such a start: the
    Markdown is then white space, an image and a rest, the image returned is
    its target, which is not empty, and the Markdown returned is the
    trimmed rest. When no image is extracted the Markdown is returned as it
    came, untrimmed. *)
Theorem extractLeadingImage_only_takes_a_leading_image :
  forall md : string,
    match extractedImage (extractLeadingImage md) with
    | Some target =>
        target <> EmptyString
        /\ lacks ")" target = true
        /\ exists ws alt rest,
             all_whitespace ws = true
             /\ lacks "]" alt = true
             /\ md = (ws ++ "![" ++ alt ++ "](" ++ target ++ ")" ++ rest)%string
             /\ markdown (extractLeadingImage md) = trim rest
    | None => markdown (extractLeadingImage md) = md
    end.
Proof.
  intro md. unfold extractLeadingImage, imageRegex.
  destruct (trimStart_split md) as (ws & Hws & Emd).
  destruct (strip_prefix "![" (trimStart md)) as [r1 |] eqn:E1;
    [| reflexivity].
  apply strip_prefix_sound in E1.
  destruct (take_until "]" r1) as [[alt r2] |] eqn:E2; [| reflexivity].
  apply take_until_sound in E2 as [Halt E2].
  destruct (strip_prefix "(" r2) as [r3 |] eqn:E3; [| reflexivity].
  apply strip_prefix_sound in E3.
  destruct (take_until ")" r3) as [[target r4] |] eqn:E4; [| reflexivity].
  apply take_until_sound in E4 as [Htarget E4].
  destruct target as [| c u]; [reflexivity |].
  cbn [extractedImage markdown].
  split; [discriminate |]. split; [exact Htarget |].
  exists ws, alt, r4. split; [exact Hws |]. split; [exact Halt |]. split.
  - rewrite Emd at 1. rewrite E1, E2, E3, E4. reflexivity.
  - destruct (line_end_group r4) as [after |] eqn:E5; [| reflexivity].
    unfold trim. now rewrite (line_end_group_is_whitespace r4 after E5).
Qed.

Lemma append_assoc (a b c : string) :
  ((a ++ b) ++ c = a ++ (b ++ c))%string.
Proof. induction a as [| x a IH]; simpl; [reflexivity | now rewrite IH]. Qed.

Lemma lacks_app (c : ascii) (a b : string) :
  lacks c (a ++ b)%string = lacks c a && lacks c b.
Proof.
  induction a as [| x a IH]; simpl; [reflexivity |].
  now rewrite IH, andb_assoc.
Qed.

(** X17. The [images] rule writes the title of an image inside the
    parentheses, after the source; when such an image leads the Markdown,
    the image extracted is the source followed by a space and the quoted
    title, not the source alone. *)
Theorem leading_image_is_extracted_with_its_title :
  forall alt src title rest : string,
    lacks "]" alt = true ->
    src <> EmptyString ->
    lacks ")" src = true ->
    title <> EmptyString ->
    lacks ")" title = true ->
    extractLeadingImage
      (image_replacement (Some alt) (Some src) (Some title) ++ rest)%string
    = {| markdown := trim rest;
         extractedImage :=
           Some (src ++ " " ++ String double_quote title
                   ++ String double_quote "")%string |}.
Proof.
  intros alt src title rest Halt Hsrc Hlsrc Htitle Hltitle.
  assert (E : (image_replacement (Some alt) (Some src) (Some title) ++ rest
               = "" ++ "![" ++ alt ++ "]("
                 ++ (src ++ " " ++ String double_quote title
                       ++ String double_quote "")
                 ++ ")" ++ rest)%string).
  { unfold image_replacement, or_empty, truthy.
    destruct src as [| c s]; [congruence |].
    destruct title as [| d t]; [congruence |].
    cbn [append]. do 2 f_equal.
    rewrite !append_assoc. cbn [append]. do 2 f_equal.
    rewrite !append_assoc. cbn [append]. f_equal.
    rewrite !append_assoc. reflexivity. }
  rewrite E. apply extractLeadingImage_matches.
  - reflexivity.
  - exact Halt.
  - rewrite !lacks_app, Hlsrc. simpl. rewrite Hltitle. reflexivity.
  - destruct src; [congruence | discriminate].
Qed.

(** X18. The [blockquotes] rule puts the quote marker before every line of
    the trimmed content, keeps the lines as they are and in their number,
    and ends the block with an empty line; content that is empty or white
    space becomes a single marker. *)
Theorem blockquote_replacement_quotes_every_line :
  forall content : string,
    exists body,
      blockquote_replacement content
      = (body ++ String newline (String newline ""))%string
      /\ split_on newline body
         = map (fun line => ("> " ++ line)%string)
               (split_on newline (trim content))
      /\ (trim content = EmptyString -> body = "> ").
Proof.
  intro content.
  exists (String.concat (String newline "")
            (map (fun line => ("> " ++ line)%string)
                 (split_on newline (trim content)))).
  split; [reflexivity |]. split.
  - apply split_on_concat.
    + pose proof (split_on_nonempty newline (trim content)) as H.
      destruct (split_on newline (trim content)); [congruence | discriminate].
    + pose proof (split_on_pieces_lack newline (trim content)) as H.
      induction H as [| line lines Hline _ IH]; constructor; [| exact IH].
      cbn [append lacks]. rewrite Hline. reflexivity.
  - intros ->. reflexivity.
Qed.

(** ** The command line *)

(** X19. The validation accepts the arguments exactly when a signer string
    is given or the run is a dry run, the limit is not zero or less and the
    delay is not below zero. A limit or a delay that is not a number is not
    refused: every comparison with it is false. *)
Theorem check_accepts_exactly :
  forall argv : Argv,
    check argv = inr tt
    <-> ((argv_dryRun argv = true
          \/ exists c r, argv_signer argv = Some (String c r))
         /\ limit_passes (argv_limit argv)
         /\ delay_passes (argv_delay argv)).
Proof.
  intros [signer_arg limit delay dry]. unfold check.
  cbn [argv_dryRun argv_signer argv_limit argv_delay].
  split.
  - intro H.
    assert (Hs : dry = true \/ exists c r, signer_arg = Some (String c r)).
    { destruct dry; [now left |]. right.
      destruct signer_arg as [[| c r] |]; try discriminate H. eauto. }
    split; [exact Hs |].
    replace (negb dry && match truthy signer_arg with
                         | Some _ => false | None => true end)
      with false in H
      by (destruct Hs as [-> | (c & r & ->)]; [reflexivity |];
          now rewrite andb_false_r).
    destruct limit as [| q | |]; cbn [js_le] in H; try discriminate H.
    + split; [exact I |].
      destruct delay as [| d | |]; cbn [js_lt] in H; try discriminate H;
        try exact I.
      cbn [delay_passes]. destruct (Qle_bool 0 d) eqn:E; [| discriminate H].
      now apply Qle_bool_iff.
    + destruct (Qle_bool q 0) eqn:E; [discriminate H |]. split.
      * cbn [limit_passes]. apply Qnot_le_lt. intro Hle.
        apply Qle_bool_iff in Hle. congruence.
      * destruct delay as [| d | |]; cbn [js_lt] in H; try discriminate H;
          try exact I.
        cbn [delay_passes]. destruct (Qle_bool 0 d) eqn:E'; [| discriminate H].
        now apply Qle_bool_iff.
    + split; [exact I |].
      destruct delay as [| d | |]; cbn [js_lt] in H; try discriminate H;
        try exact I.
      cbn [delay_passes]. destruct (Qle_bool 0 d) eqn:E; [| discriminate H].
      now apply Qle_bool_iff.
  - intros (Hs & Hl & Hd).
    replace (negb dry && match truthy signer_arg with
                         | Some _ => false | None => true end)
      with false
      by (destruct Hs as [-> | (c & r & ->)]; [reflexivity |];
          now rewrite andb_false_r).
    assert (El : js_le limit (Finite 0) = false).
    { destruct limit as [| q | |]; cbn [js_le limit_passes] in *;
        try reflexivity; [| contradiction].
      destruct (Qle_bool q 0) eqn:E; [| reflexivity].
      apply Qle_bool_iff in E. exfalso. exact (Qlt_not_le 0 q Hl E). }
    assert (Ed : js_lt delay (Finite 0) = false).
    { destruct delay as [| d | |]; cbn [js_lt delay_passes] in *;
        try reflexivity; [| contradiction].
      apply Qle_bool_iff in Hd. now rewrite Hd. }
    now rewrite El, Ed.
Qed.

Lemma trimStart_lacks (c : ascii) (s : string) :
  lacks c s = true -> lacks c (trimStart s) = true.
Proof.
  induction s as [| x r IH]; intro H; [reflexivity |].
  simpl. destruct (is_whitespace x); [| exact H].
  simpl in H. apply andb_true_iff in H as [_ H]. now apply IH.
Qed.

Lemma trimEnd_lacks (c : ascii) (s : string) :
  lacks c s = true -> lacks c (trimEnd s) = true.
Proof.
  induction s as [| x r IH]; intro H; [reflexivity |].
  simpl in H. apply andb_true_iff in H as [Hx Hr]. specialize (IH Hr).
  simpl. destruct (trimEnd r) as [| y k].
  - destruct (is_whitespace x); [reflexivity |]. simpl. now rewrite Hx.
  - simpl in *. now rewrite Hx.
Qed.

Lemma trimEnd_idempotent (s : string) : trimEnd (trimEnd s) = trimEnd s.
Proof.
  induction s as [| x r IH]; [reflexivity |].
  simpl. destruct (trimEnd r) as [| y k] eqn:E.
  - destruct (is_whitespace x) eqn:Hx; [reflexivity |].
    simpl. now rewrite Hx.
  - change (trimEnd (String x (String y k)))
      with (match trimEnd (String y k) with
            | EmptyString => if is_whitespace x then EmptyString
                             else String x EmptyString
            | kept => String x kept
            end).
    rewrite IH. reflexivity.
Qed.

Lemma trimStart_trimEnd (s : string) :
  trimStart s = s -> trimStart (trimEnd s) = trimEnd s.
Proof.
  destruct s as [| x r]; [reflexivity |]. intro H.
  simpl in H. destruct (is_whitespace x) eqn:Hx.
  - exfalso.
    assert (Hlen : String.length (trimStart r) <= String.length r).
    { clear. induction r as [| y r IH]; simpl; [lia |].
      destruct (is_whitespace y); simpl; lia. }
    rewrite H in Hlen. simpl in Hlen. lia.
  - cbn [trimEnd]. destruct (trimEnd r); rewrite ?Hx; cbn [trimStart];
      now rewrite Hx.
Qed.

Lemma trimStart_idempotent (s : string) : trimStart (trimStart s) = trimStart s.
Proof.
  induction s as [| x r IH]; [reflexivity |].
  simpl. destruct (is_whitespace x) eqn:Hx; [exact IH |].
  simpl. now rewrite Hx.
Qed.

Lemma trim_idempotent (s : string) : trim (trim s) = trim s.
Proof.
  unfold trim. rewrite trimStart_trimEnd by apply trimStart_idempotent.
  apply trimEnd_idempotent.
Qed.

Lemma split_on_length (sep : ascii) (s : string) :
  length (split_on sep s) = S (occurrences sep s).
Proof.
  induction s as [| c r IH]; [reflexivity |].
  simpl. destruct (Ascii.eqb c sep); simpl; [now rewrite IH |].
  destruct (split_on sep r); simpl in *; lia.
Qed.

(** X20. The relays option is coerced to nothing for the empty string and
    otherwise to a list with one entry more than the string has commas:
    never the empty list. The entries are trimmed and hold no comma; an
    entry may be the empty string. So the quorum target of a publication
    started from the command line is at least 1. *)
Theorem coerce_relays_never_gives_an_empty_list :
  forall arg : string,
    match coerce_relays arg with
    | None => arg = EmptyString
    | Some rs =>
        length rs = S (occurrences "," arg)
        /\ Forall (fun r => trim r = r /\ lacks "," r = true) rs
    end
    /\ forall (this : NIP23Publisher) (s : string),
         defaultRelays this <> [] ->
         (1 <= quorum (target_relays this
                         {| relays := coerce_relays arg;
                            signerString := s |}))%Z.
Proof.
  intro arg. split.
  - destruct arg as [| c r]; [reflexivity |].
    unfold coerce_relays. rewrite length_map, split_on_length.
    split; [reflexivity |].
    apply Forall_map.
    pose proof (split_on_pieces_lack "," (String c r)) as H.
    induction H as [| piece pieces Hpiece _ IH]; constructor; [| exact IH].
    split; [apply trim_idempotent |].
    unfold trim. now apply trimEnd_lacks, trimStart_lacks.
  - intros this s Hdef. rewrite quorum_eq. unfold target_relays.
    cbn [relays].
    assert (Hlen : 0 < length (match coerce_relays arg with
                               | Some rs => rs
                               | None => defaultRelays this
                               end)).
    { destruct arg as [| c r]; cbn [coerce_relays].
      - destruct (defaultRelays this); [congruence | simpl; lia].
      - rewrite length_map, split_on_length. lia. }
    apply Z.div_le_lower_bound; lia.
Qed.

(** ** The scraper: which links are articles *)

Lemma prefix_app (p s : string) : prefix p (p ++ s)%string = true.
Proof.
  induction p as [| a p IH]; [now destruct s |].
  simpl. destruct (ascii_dec a a); [exact IH | congruence].
Qed.

Lemma includes_app (pre p post : string) :
  includes (pre ++ p ++ post)%string p = true.
Proof.
  induction pre as [| c pre IH].
  - cbn [append]. destruct (p ++ post)%string eqn:E;
      cbn [includes]; rewrite <- E, prefix_app; reflexivity.
  - change ((String c pre ++ p ++ post)%string)
      with (String c (pre ++ p ++ post)%string).
    cbn [includes]. rewrite IH.
    now destruct (prefix p (String c (pre ++ p ++ post))).
Qed.

(** X21. A link is refused when its lower-cased form contains one of the
    excluded patterns at any place, not only at the start of a path
    segment: a slug that merely begins with [feed], [rss], [search] or
    [sitemap] is refused like the feed itself. A link that is accepted has
    at least three characters. *)
Theorem isArticleLink_refuses_patterns_anywhere :
  forall (pf : Platform) (href : string),
    (forall pre pattern post : string,
        In pattern excludePatterns ->
        toLowerCase pf href = (pre ++ pattern ++ post)%string ->
        isArticleLink pf href = false)
    /\ (isArticleLink pf href = true ->
        3 <= String.length href /\ numbers_only href = false).
Proof.
  intros pf href. split.
  - intros pre pattern post Hin Hlower. unfold isArticleLink.
    replace (existsb (fun pattern0 => includes (toLowerCase pf href) pattern0)
               excludePatterns) with true; [reflexivity |].
    symmetry. apply existsb_exists. exists pattern. split; [exact Hin |].
    rewrite Hlower. apply includes_app.
  - unfold isArticleLink. intro H.
    destruct (existsb _ excludePatterns); [discriminate |].
    destruct (existsb _ excludePages); [discriminate |].
    destruct (String.length href <? 3) eqn:Hlen; [discriminate |].
    destruct (numbers_only href); [discriminate |].
    apply Nat.ltb_ge in Hlen. now split.
Qed.

Lemma drop_while_all (p : ascii -> bool) (s tail : string) :
  all_in_class p s = true ->
  match tail with String c _ => p c = false | EmptyString => True end ->
  drop_while p (s ++ tail)%string = tail.
Proof.
  intros Hs Htail. induction s as [| c r IH].
  - destruct tail as [| c r]; [reflexivity |]. cbn. now rewrite Htail.
  - simpl in Hs. apply andb_true_iff in Hs as [Hc Hr].
    cbn. rewrite Hc. now apply IH.
Qed.

Lemma append_nil_r (s : string) : (s ++ "")%string = s.
Proof. induction s as [| c r IH]; simpl; [reflexivity | now rewrite IH]. Qed.

(** X22. A path made only of digits, dashes and underscores, with or
    without a final slash, is never an article link, whatever its length:
    dated archive paths are refused. *)
Theorem isArticleLink_refuses_number_paths :
  forall (pf : Platform) (body : string),
    body <> EmptyString ->
    all_in_class is_digit_dash_underscore body = true ->
    isArticleLink pf ("/" ++ body)%string = false
    /\ isArticleLink pf ("/" ++ body ++ "/")%string = false.
Proof.
  intros pf body Hne Hall.
  destruct body as [| d rest]; [congruence |].
  simpl in Hall. apply andb_true_iff in Hall as [Hd Hrest].
  assert (N1 : numbers_only ("/" ++ String d rest)%string = true).
  { cbn [append numbers_only]. rewrite Hd.
    rewrite <- (append_nil_r rest).
    rewrite drop_while_all; [reflexivity | exact Hrest | exact I]. }
  assert (N2 : numbers_only ("/" ++ String d rest ++ "/")%string = true).
  { cbn [append numbers_only]. rewrite Hd.
    rewrite drop_while_all; [reflexivity | exact Hrest | reflexivity]. }
  unfold isArticleLink. rewrite N1, N2, !orb_true_r.
  split.
  - destruct (existsb _ excludePatterns); [reflexivity |].
    destruct (existsb _ excludePages); reflexivity.
  - destruct (existsb _ excludePatterns); [reflexivity |].
    destruct (existsb _ excludePages); reflexivity.
Qed.

(** ** The scraper: the listing *)

Section ScraperProperties.

Context (pf : Platform) (sw : ScrapeWorld).

Lemma existsb_eqb_In (x : string) (l : list string) :
  existsb (String.eqb x) l = true <-> In x l.
Proof.
  rewrite existsb_exists. split.
  - intros (y & Hy & E). apply String.eqb_eq in E. now subst.
  - intro H. exists x. split; [exact H | apply String.eqb_refl].
Qed.

Lemma listing_tags_step (tags0 : list string) (text : string) :
  NoDup tags0 ->
  let tagText := toLowerCase pf (trim text) in
  let tags1 :=
    match tagText with
    | EmptyString => tags0
    | _ => if existsb (String.eqb tagText) tags0 then tags0
           else tags0 ++ [tagText]
    end in
  NoDup tags1
  /\ exists more,
       tags1 = tags0 ++ more
       /\ Forall (fun tag => tag <> EmptyString /\ tag = tagText) more.
Proof.
  intros Hnd tagText tags1. subst tags1.
  destruct tagText as [| c r] eqn:E.
  - split; [exact Hnd |]. exists []. now rewrite app_nil_r.
  - destruct (existsb (String.eqb (String c r)) tags0) eqn:Hex.
    + split; [exact Hnd |]. exists []. now rewrite app_nil_r.
    + split.
      * apply NoDup_app; [exact Hnd | repeat constructor; intros [] |].
        intros x Hx [<- | []]. apply existsb_eqb_In in Hx. congruence.
      * exists [String c r]. split; [reflexivity |].
        repeat constructor. discriminate.
Qed.

Lemma listing_tags_fold (texts : list string) :
  forall tags0 : list string,
    NoDup tags0 ->
    NoDup
      (fold_left
         (fun tags text =>
            let tagText := toLowerCase pf (trim text) in
            match tagText with
            | EmptyString => tags
            | _ => if existsb (String.eqb tagText) tags then tags
                   else tags ++ [tagText]
            end)
         texts tags0)
    /\ exists more,
         fold_left
           (fun tags text =>
              let tagText := toLowerCase pf (trim text) in
              match tagText with
              | EmptyString => tags
              | _ => if existsb (String.eqb tagText) tags then tags
                     else tags ++ [tagText]
              end)
           texts tags0
         = tags0 ++ more
         /\ Forall (fun tag =>
                      tag <> EmptyString
                      /\ exists text,
                           In text texts /\ tag = toLowerCase pf (trim text))
                   more.
Proof.
  induction texts as [| text texts IH]; intros tags0 Hnd; cbn [fold_left].
  - split; [exact Hnd |]. exists []. split; [now rewrite app_nil_r |].
    constructor.
  - destruct (listing_tags_step tags0 text Hnd) as (Hnd1 & more1 & E1 & F1).
    cbv zeta in Hnd1, E1, F1.
    destruct (IH _ Hnd1) as (Hnd2 & more2 & E2 & F2).
    split; [exact Hnd2 |]. exists (more1 ++ more2). split.
    + rewrite app_assoc, <- E1. exact E2.
    + apply Forall_app. split.
      * eapply Forall_impl; [| exact F1].
        intros tag (Hne & Ht). split; [exact Hne |].
        exists text. split; [now left | exact Ht].
      * eapply Forall_impl; [| exact F2].
        intros tag (Hne & t & Hin & Ht). split; [exact Hne |].
        exists t. split; [now right | exact Ht].
Qed.


(** What the loop of the listing pushes. *)
Lemma listing_article_shape (i : nat) (post : PostView) (article : RektArticle) :
  listing_article pf sw i post = Some article ->
  (exists href,
      url article = (baseUrl ++ href)%string
      /\ startsWith href "/" = true
      /\ href <> "/"
      /\ isArticleLink pf href = true)
  /\ title article <> EmptyString
  /\ content article = EmptyString
  /\ summary article <> Some EmptyString
  /\ image article = None
  /\ tags article = listing_tags pf (post_tags post).
Proof.
  unfold listing_article.
  destruct (truthy (post_href post)) as [href |]; [| discriminate].
  destruct (trim (post_title post)) as [| c r] eqn:Et; [discriminate |].
  destruct (startsWith href "/") eqn:H1; [| discriminate].
  destruct (String.eqb_spec href "/") as [| H2]; [discriminate |].
  destruct (isArticleLink pf href) eqn:H3; [| discriminate].
  cbn [andb negb]. intros [= <-]. cbn.
  split; [exists href; auto |].
  split; [discriminate |]. split; [reflexivity |].
  split; [| split; reflexivity].
  destruct (trim (post_excerpt post)); discriminate.
Qed.

Lemma listing_articles_all (P : RektArticle -> Prop) (posts : list PostView) :
  (forall i post article,
      listing_article pf sw i post = Some article -> P article) ->
  forall i, Forall P (listing_articles pf sw i posts).
Proof.
  intro H. induction posts as [| post rest IH]; intro i; [constructor |].
  cbn [listing_articles].
  destruct (listing_article pf sw i post) as [article |] eqn:E;
    [constructor; [now apply (H i post) | apply IH] | apply IH].
Qed.

(** ** The scraper: duplicates and the limit *)

Lemma findIndex_from_app (p : RektArticle -> bool)
    (pre : list RektArticle) (a : RektArticle) (rest : list RektArticle) :
  p a = true ->
  forall i : nat,
    findIndex_from p (pre ++ a :: rest) i
    = if existsb p pre then findIndex_from p pre i
      else Some (i + length pre).
Proof.
  intro Ha. induction pre as [| b pre IH]; intro i.
  - cbn. rewrite Ha. f_equal. lia.
  - cbn. destruct (p b); [reflexivity |]. cbn. rewrite IH.
    destruct (existsb p pre); [reflexivity |]. f_equal. lia.
Qed.

Lemma findIndex_from_bound (p : RektArticle -> bool)
    (l : list RektArticle) :
  forall i k : nat, findIndex_from p l i = Some k -> i <= k < i + length l.
Proof.
  induction l as [| b l IH]; intros i k H; [discriminate |].
  cbn in H. destruct (p b).
  - inversion H. subst. simpl. lia.
  - apply IH in H. simpl. lia.
Qed.

Lemma filter_first_occurrences (l pre : list RektArticle) (whole : list RektArticle) :
  whole = pre ++ l ->
  map snd
      (filter
         (fun entry : nat * RektArticle =>
            match findIndex (fun a => String.eqb (url a) (url (snd entry)))
                            whole with
            | Some first => first =? fst entry
            | None => false
            end)
         (combine (seq (length pre) (length l)) l))
  = keep_first (map url pre) l.
Proof.
  revert pre. induction l as [| a rest IH]; intros pre Hw; [reflexivity |].
  cbn [length seq combine filter fst snd keep_first].
  unfold findIndex at 1. rewrite Hw at 1.
  rewrite findIndex_from_app by apply String.eqb_refl.
  assert (Hex : existsb (fun b => String.eqb (url b) (url a)) pre
                = existsb (String.eqb (url a)) (map url pre)).
  { clear. induction pre as [| b pre IH]; [reflexivity |].
    cbn. rewrite IH. f_equal. apply String.eqb_sym. }
  rewrite Hex.
  assert (Hrest : map snd
            (filter
               (fun entry : nat * RektArticle =>
                  match findIndex
                          (fun a0 => String.eqb (url a0) (url (snd entry)))
                          whole with
                  | Some first => first =? fst entry
                  | None => false
                  end)
               (combine (seq (S (length pre)) (length rest)) rest))
          = keep_first (map url pre ++ [url a]) rest).
  { specialize (IH (pre ++ [a])).
    rewrite length_app, Nat.add_1_r, map_app in IH. apply IH.
    now rewrite <- app_assoc. }
  destruct (existsb (String.eqb (url a)) (map url pre)) eqn:Hseen.
  - destruct (findIndex_from (fun b => String.eqb (url b) (url a)) pre 0)
      as [k |] eqn:Ek.
    + apply findIndex_from_bound in Ek.
      replace (k =? length pre) with false
        by (symmetry; apply Nat.eqb_neq; lia).
      exact Hrest.
    + exact Hrest.
  - cbn [Nat.add]. rewrite Nat.eqb_refl. cbn [map snd]. now rewrite Hrest.
Qed.

Lemma keep_first_fresh (l : list RektArticle) :
  forall seen : list string,
    NoDup (map url (keep_first seen l))
    /\ (forall u, In u (map url (keep_first seen l)) -> ~ In u seen)
    /\ (forall a, In a (keep_first seen l) -> In a l).
Proof.
  induction l as [| a rest IH]; intro seen; cbn [keep_first].
  - repeat split; [constructor | intros u [] | intros a []].
  - destruct (IH (seen ++ [url a])) as (Hnd & Hfresh & Hsub).
    destruct (existsb (String.eqb (url a)) seen) eqn:Hseen.
    + repeat split; [exact Hnd | | intros b Hb; right; now apply Hsub].
      intros u Hu Hin. apply (Hfresh u Hu). apply in_or_app. now left.
    + repeat split.
      * cbn [map]. constructor; [| exact Hnd].
        intro Hin. apply (Hfresh _ Hin). apply in_or_app. right. now left.
      * intros u [<- | Hu] Hin.
        -- apply existsb_eqb_In in Hin. congruence.
        -- apply (Hfresh u Hu). apply in_or_app. now left.
      * intros b [<- | Hb]; [now left | right; now apply Hsub].
Qed.

Lemma uniqueArticles_keeps_first (articles : list RektArticle)
    (limit : JSNumber) :
  uniqueArticles articles limit
  = firstn (slice_end (length (keep_first [] articles)) limit)
           (keep_first [] articles).
Proof.
  pose proof (filter_first_occurrences articles [] articles eq_refl) as H.
  cbn [length map] in H.
  unfold uniqueArticles, filter_indexed. cbv beta zeta.
  now rewrite H.
Qed.

Lemma NoDup_map_firstn (k : nat) (l : list RektArticle) :
  NoDup (map url l) -> NoDup (map url (firstn k l)).
Proof.
  revert k. induction l as [| a l IH]; intros k H.
  - now rewrite firstn_nil.
  - destruct k as [| k]; [constructor |].
    cbn [firstn map] in *. inversion H as [| ? ? Hnotin Hnd]. subst.
    constructor; [| now apply IH].
    intro Hin. apply Hnotin. apply in_map_iff in Hin as (b & Eb & Hb).
    apply in_map_iff. exists b. split; [exact Eb |].
    rewrite <- (firstn_skipn k l). apply in_or_app. now left.
Qed.

End ScraperProperties.

(** ** The scraper: article pages and the result *)

Section ScraperResult.

Context (pf : Platform) (sw : ScrapeWorld).

Lemma pick_content_from_hit (hits : list SelectorHit) :
  pick_content hits = EmptyString
  \/ exists hit,
       In hit hits
       /\ hit_found hit = true
       /\ 100 < String.length (trim (hit_text hit))
       /\ hit_html hit = Some (pick_content hits).
Proof.
  induction hits as [| hit rest IH]; [now left |].
  cbn [pick_content].
  destruct (hit_found hit) eqn:Hf; cbn [andb].
  - destruct (100 <? String.length (trim (hit_text hit))) eqn:Hlen.
    + destruct (hit_html hit) as [html |] eqn:Hh; [| now left].
      right. exists hit. apply Nat.ltb_lt in Hlen.
      repeat split; [now left | assumption | assumption | assumption].
    + destruct IH as [E | (h & Hin & H1 & H2 & H3)]; [now left |].
      right. exists h. repeat split; [now right | assumption ..].
  - destruct IH as [E | (h & Hin & H1 & H2 & H3)]; [now left |].
    right. exists h. repeat split; [now right | assumption ..].
Qed.

Lemma or_else_nonempty (a b : string) :
  b <> EmptyString -> or_else a b <> EmptyString.
Proof. destruct a; simpl; [auto | discriminate]. Qed.

(** X24. Reading the page of an article never changes its URL or its tags,
    and never empties its title. The article comes back unchanged when the
    request is rejected or answered with a status that is not ok, and when
    the image address of the page cannot be resolved. New content is always
    the inner HTML of a content selector whose trimmed text is longer than
    100 characters. *)
Theorem fetchArticleContent_keeps_the_article :
  forall article : RektArticle,
    url (fetchArticleContent sw article) = url article
    /\ tags (fetchArticleContent sw article) = tags article
    /\ (title article <> EmptyString ->
        title (fetchArticleContent sw article) <> EmptyString)
    /\ ((forall page, fetch_page sw (url article) <> ResponseOk page) ->
        fetchArticleContent sw article = article)
    /\ (content (fetchArticleContent sw article) <> content article ->
        exists page hit,
          fetch_page sw (url article) = ResponseOk page
          /\ In hit (page_contents page)
          /\ hit_found hit = true
          /\ 100 < String.length (trim (hit_text hit))
          /\ hit_html hit = Some (content (fetchArticleContent sw article))).
Proof.
  intro article. unfold fetchArticleContent.
  destruct (fetch_page sw (url article)) as [e | status | page] eqn:Efetch;
    try (repeat split; auto; congruence).
  set (image' := match truthy (page_og_image page) with
                 | Some src => Some src
                 | None => truthy (page_first_img page)
                 end).
  assert (Hcontent :
            or_else (pick_content (page_contents page)) (content article)
            <> content article ->
            exists page0 hit,
              ResponseOk page = ResponseOk page0
              /\ In hit (page_contents page0)
              /\ hit_found hit = true
              /\ 100 < String.length (trim (hit_text hit))
              /\ hit_html hit
                 = Some (or_else (pick_content (page_contents page))
                                 (content article))).
  { intro Hc.
    destruct (pick_content_from_hit (page_contents page))
      as [E | (hit & Hin & H1 & H2 & H3)].
    - rewrite E in Hc. simpl in Hc. congruence.
    - exists page, hit. repeat split; try assumption.
      rewrite H3. f_equal.
      destruct (pick_content (page_contents page)); [| reflexivity].
      simpl in Hc. congruence. }
  destruct image' as [src |].
  - destruct (URL_resolve sw src (url article)) as [href |].
    + cbn [url tags title content]. repeat split; auto.
      * intro Ht. now apply or_else_nonempty, or_else_nonempty.
      * intro H. exfalso. now apply (H page).
    + repeat split; auto; congruence.
  - cbn [url tags title content]. repeat split; auto.
    + intro Ht. now apply or_else_nonempty, or_else_nonempty.
    + intro H. exfalso. now apply (H page).
Qed.

Lemma fetchArticleContent_url (article : RektArticle) :
  url (fetchArticleContent sw article) = url article.
Proof.
  unfold fetchArticleContent.
  destruct (fetch_page sw (url article)) as [e | status | page];
    try reflexivity.
  destruct (match truthy (page_og_image page) with
            | Some src => Some src
            | None => truthy (page_first_img page)
            end) as [src |]; [| reflexivity].
  destruct (URL_resolve sw src (url article)); reflexivity.
Qed.

Lemma fetchArticleContent_tags (article : RektArticle) :
  tags (fetchArticleContent sw article) = tags article.
Proof.
  unfold fetchArticleContent.
  destruct (fetch_page sw (url article)) as [e | status | page];
    try reflexivity.
  destruct (match truthy (page_og_image page) with
            | Some src => Some src
            | None => truthy (page_first_img page)
            end) as [src |]; [| reflexivity].
  destruct (URL_resolve sw src (url article)); reflexivity.
Qed.

Lemma fetchArticleContent_title (article : RektArticle) :
  title article <> EmptyString ->
  title (fetchArticleContent sw article) <> EmptyString.
Proof.
  intro H. unfold fetchArticleContent.
  destruct (fetch_page sw (url article)) as [e | status | page];
    try exact H.
  destruct (match truthy (page_og_image page) with
            | Some src => Some src
            | None => truthy (page_first_img page)
            end) as [src |].
  - destruct (URL_resolve sw src (url article)); [| exact H].
    cbn [title]. now apply or_else_nonempty, or_else_nonempty.
  - cbn [title]. now apply or_else_nonempty, or_else_nonempty.
Qed.

Lemma NoDup_map_filter {A B : Type} (g : A -> B) (p : A -> bool)
    (l : list A) :
  NoDup (map g l) -> NoDup (map g (filter p l)).
Proof.
  induction l as [| a l IH]; intro H; [constructor |].
  cbn [map] in H. inversion H as [| ? ? Hnotin Hnd]. subst.
  cbn [filter]. destruct (p a); [| now apply IH].
  cbn [map]. constructor; [| now apply IH].
  intro Hin. apply Hnotin. apply in_map_iff in Hin as (b & Eb & Hb).
  apply in_map_iff. exists b. split; [exact Eb |].
  now apply filter_In in Hb as [Hb _].
Qed.

Lemma slice_end_natural (len n : nat) :
  slice_end len (Finite (inject_Z (Z.of_nat n))) = Nat.min n len.
Proof.
  unfold slice_end, truncate.
  replace (Qle_bool 0 (inject_Z (Z.of_nat n))) with true.
  - rewrite Qfloor_Z.
    destruct (Z.ltb_spec (Z.of_nat n) 0); lia.
  - symmetry. apply Qle_bool_iff. unfold Qle. simpl. lia.
Qed.

(** X25. The articles [fetchLatestArticles] returns have pairwise distinct
    URLs and are at most as many as a natural limit allows; with a limit
    that is not a number, or when the listing cannot be fetched, there are
    none. Each has content longer than 100 characters, a title that is not
    empty, tags without repetition, and a URL made of the base address and
    an accepted link that starts with a slash. *)
Theorem fetchLatestArticles_result :
  (forall limit : JSNumber,
      NoDup (map url (fetchLatestArticles pf sw limit))
      /\ Forall
           (fun article =>
              100 < String.length (content article)
              /\ title article <> EmptyString
              /\ NoDup (tags article)
              /\ exists href,
                   url article = (baseUrl ++ href)%string
                   /\ startsWith href "/" = true
                   /\ isArticleLink pf href = true)
           (fetchLatestArticles pf sw limit)
      /\ ((forall posts, fetch_listing sw <> ResponseOk posts) ->
          fetchLatestArticles pf sw limit = []))
  /\ (forall n : nat,
        length (fetchLatestArticles pf sw (Finite (inject_Z (Z.of_nat n))))
        <= n)
  /\ fetchLatestArticles pf sw NaN = [].
Proof.
  split; [| split].
  - intro limit. unfold fetchLatestArticles.
    destruct (fetch_listing sw) as [e | status | posts];
      try (split; [constructor | split; [constructor | intros; reflexivity]]).
    rewrite uniqueArticles_keeps_first.
    set (listed := listing_articles pf sw 0 posts).
    set (unique := firstn _ (keep_first [] listed)).
    destruct (keep_first_fresh listed []) as (Hnd & _ & Hsub).
    split; [| split].
    + apply NoDup_map_filter. rewrite map_map.
      rewrite (map_ext _ url) by apply fetchArticleContent_url.
      now apply NoDup_map_firstn.
    + apply Forall_forall. intros full Hfull.
      apply filter_In in Hfull as [Hin Hlen]. apply Nat.ltb_lt in Hlen.
      apply in_map_iff in Hin as (article & <- & Hin).
      assert (Hlisted : In article listed).
      { apply Hsub. subst unique.
        rewrite <- (firstn_skipn
                      (slice_end (length (keep_first [] listed)) limit)
                      (keep_first [] listed)).
        apply in_or_app. now left. }
      pose proof (listing_articles_all pf sw
                    (fun a =>
                       title a <> EmptyString
                       /\ NoDup (tags a)
                       /\ exists href,
                            url a = (baseUrl ++ href)%string
                            /\ startsWith href "/" = true
                            /\ isArticleLink pf href = true) posts) as Hall.
      assert (Hshape : Forall
                (fun a =>
                   title a <> EmptyString
                   /\ NoDup (tags a)
                   /\ exists href,
                        url a = (baseUrl ++ href)%string
                        /\ startsWith href "/" = true
                        /\ isArticleLink pf href = true) listed).
      { apply Hall. intros i post a Ha.
        destruct (listing_article_shape pf sw i post a Ha)
          as ((href & Hu & Hs & _ & Hl) & Ht & _ & _ & _ & Htags).
        split; [exact Ht |]. split.
        - rewrite Htags. unfold listing_tags. apply listing_tags_fold.
          repeat constructor; simpl; intuition discriminate.
        - exists href. auto. }
      rewrite Forall_forall in Hshape.
      destruct (Hshape article Hlisted) as (Ht & Htags & Hurl).
      split; [exact Hlen |].
      split; [now apply fetchArticleContent_title |].
      split; [now rewrite fetchArticleContent_tags |].
      now rewrite fetchArticleContent_url.
    + intro H. exfalso. now apply (H posts).
  - intro n. unfold fetchLatestArticles.
    destruct (fetch_listing sw) as [e | status | posts]; try (simpl; lia).
    rewrite uniqueArticles_keeps_first.
    eapply Nat.le_trans; [apply filter_length_le |].
    rewrite length_map, length_firstn, slice_end_natural. lia.
  - unfold fetchLatestArticles.
    destruct (fetch_listing sw) as [e | status | posts]; reflexivity.
Qed.

End ScraperResult.

(** ** The run as a whole *)

Lemma core_effects_app (t1 t2 : list MirrorEffect) :
  core_effects (t1 ++ t2) = core_effects t1 ++ core_effects t2.
Proof. unfold core_effects. apply flat_map_app. Qed.


Lemma candidates_app (t1 t2 : list MirrorEffect) :
  candidates (t1 ++ t2) = candidates t1 ++ candidates t2.
Proof. unfold candidates. apply flat_map_app. Qed.



Section MirrorProperties.

Context (pf : Platform) (lib : SignerLib) (sw : ScrapeWorld)
        (to_markdown : string -> string -> Settled string)
        (worlds : nat -> World).

(** One turn of the conversion loop. *)
Lemma process_articles_cons (n i : nat) (article : RektArticle)
    (rest : list RektArticle) (processed : list (RektArticle * string)) :
  process_articles to_markdown n i (article :: rest) processed
  = match to_markdown (content article) (url article) with
    | inl e =>
        (Throw e,
         [Line (LineProcessing (i + 1) n (title article)); Line LineConverting])
    | inr md =>
        let result := extractLeadingImage md in
        if String.length (markdown result) <? 100 then
          (fst (process_articles to_markdown n (S i) rest processed),
           [ Line (LineProcessing (i + 1) n (title article));
             Line LineConverting; Line LineTooShort ]
           ++ snd (process_articles to_markdown n (S i) rest processed))
        else
          (fst (process_articles to_markdown n (S i) rest
                  (processed ++ [processed_item article result])),
           [ Line (LineProcessing (i + 1) n (title article));
             Line LineConverting;
             Line (LineConverted (String.length (markdown result))) ]
           ++ match truthy (extractedImage result) with
              | Some extracted => [Line (LineExtractedImage extracted)]
              | None => []
              end
           ++ [Line (LinePreview (preview_of (markdown result)))]
           ++ snd (process_articles to_markdown n (S i) rest
                     (processed ++ [processed_item article result])))
    end.
Proof.
  cbn [process_articles]. unfold convertRektArticle, mm_bind, line, mm_ret.
  destruct (to_markdown (content article) (url article)) as [e | md];
    [reflexivity |].
  cbv zeta.
  destruct (String.length (markdown (extractLeadingImage md)) <? 100).
  - destruct (process_articles to_markdown n (S i) rest processed).
    reflexivity.
  - unfold processed_item.
    destruct (truthy (extractedImage (extractLeadingImage md)))
      as [extracted |].
    + destruct (process_articles to_markdown n (S i) rest _). reflexivity.
    + destruct article.
      destruct (process_articles to_markdown n (S i) rest _). reflexivity.
Qed.

(** The conversion loop: it stops at the first conversion that throws, and
    otherwise returns the kept items; it prints and does nothing else. *)
Lemma process_articles_outcome (n : nat) (articles : list RektArticle) :
  forall (i : nat) (processed : list (RektArticle * string)),
    (fst (process_articles to_markdown n i articles processed)
     = Normal (processed ++ kept_items to_markdown articles)
     \/ exists e, fst (process_articles to_markdown n i articles processed)
                  = Throw e)
    /\ core_effects (snd (process_articles to_markdown n i articles processed))
       = []
    /\ candidates (snd (process_articles to_markdown n i articles processed))
       = [].
Proof.
  induction articles as [| article rest IH]; intros i processed.
  - cbn. rewrite app_nil_r. repeat split. now left.
  - rewrite process_articles_cons. cbn [kept_items flat_map].
    destruct (to_markdown (content article) (url article)) as [e | md].
    + cbn. repeat split. right. now exists e.
    + cbv zeta.
      destruct (String.length (markdown (extractLeadingImage md)) <? 100).
      * destruct (IH (S i) processed) as (H1 & H2 & H3).
        cbn [fst snd]. rewrite core_effects_app, candidates_app, H2, H3.
        split; [exact H1 |]. split; reflexivity.
      * destruct (IH (S i)
                    (processed
                     ++ [processed_item article (extractLeadingImage md)]))
          as (H1 & H2 & H3).
        cbn [fst snd].
        rewrite !core_effects_app, !candidates_app, H2, H3.
        rewrite <- app_assoc in H1. split; [exact H1 |].
        destruct (truthy (extractedImage (extractLeadingImage md)));
          split; reflexivity.
Qed.

Lemma candidates_for_each (items : list (RektArticle * string)) :
  forall i : nat,
    candidates
      (for_each_line
         (fun index item =>
            LineCandidate (index + 1) (title (fst item)) (url (fst item)))
         i items)
    = numbered_candidates i items
    /\ core_effects
         (for_each_line
            (fun index item =>
               LineCandidate (index + 1) (title (fst item)) (url (fst item)))
            i items)
       = [].
Proof.
  induction items as [| item rest IH]; intro i; [now split |].
  destruct (IH (S i)) as [H1 H2]. unfold candidates, core_effects in *.
  cbn [for_each_line flat_map app numbered_candidates].
  rewrite H1, H2. split; reflexivity.
Qed.

(** X26. A dry run creates no signer and signs, broadcasts, subscribes and
    sleeps nothing: of the publisher's effects it has only console lines.
    When it ends normally it has listed, numbered from 1, exactly the
    articles whose Markdown has at least 100 characters once the leading
    image is taken out. *)
Theorem dry_run_touches_neither_signer_nor_relays :
  forall (this : NIP23Publisher) (config : MirrorConfig),
    mc_dryRun config = true ->
    let outcome :=
      RektNostrMirror_run pf lib sw to_markdown worlds this config in
    filter is_external_call (core_effects (snd outcome)) = []
    /\ filter is_sleep (core_effects (snd outcome)) = []
    /\ (fst outcome = Normal tt ->
        candidates (snd outcome)
        = numbered_candidates 0
            (kept_items to_markdown
               (fetchLatestArticles pf sw (mc_articleLimit config)))).
Proof.
  intros this config Hdry outcome. subst outcome.
  unfold RektNostrMirror_run. rewrite Hdry. cbn [negb].
  destruct (fetchLatestArticles pf sw (mc_articleLimit config))
    as [| article articles] eqn:Efetch.
  - cbn. repeat split; reflexivity.
  - destruct (process_articles_outcome
                (length (article :: articles)) (article :: articles) 0 [])
      as (Hres & Hcore & Hcand).
    unfold core_effects, candidates in *.
    destruct (process_articles to_markdown (length (article :: articles)) 0
                (article :: articles) []) as [[items | e |] t];
      cbn [fst snd] in Hres, Hcore, Hcand.
    + destruct Hres as [Hres | [e He]]; [| discriminate He].
      injection Hres as Hitems.
      change (items = kept_items to_markdown (article :: articles)) in Hitems.
      rewrite <- Hitems. clear Hitems. destruct items as [| item items].
      * cbn. rewrite !flat_map_app, Hcore, Hcand. cbn.
        repeat split; reflexivity.
      * cbn. rewrite !flat_map_app, Hcore, Hcand. cbn.
        destruct (candidates_for_each items 1) as [Hc1 Hc2].
        unfold core_effects, candidates in Hc1, Hc2.
        rewrite Hc1, Hc2. repeat split; reflexivity.
    + destruct e as [message | v]; cbn;
        rewrite !flat_map_app, Hcore; cbn;
        (split; [reflexivity | split; [reflexivity | discriminate]]).
    + destruct Hres as [Hres | [e He]]; discriminate.
Qed.

End MirrorProperties.

Section MirrorOutcome.

Context (pf : Platform) (lib : SignerLib) (sw : ScrapeWorld)
        (to_markdown : string -> string -> Settled string)
        (worlds : nat -> World).





End MirrorOutcome.

Lemma extractLeadingImage_target_nonempty (md target : string) :
  extractedImage (extractLeadingImage md) = Some target ->
  truthy (Some target) = Some target.
Proof.
  unfold extractLeadingImage, imageRegex.
  destruct (strip_prefix "![" (trimStart md)) as [r1 |]; [| discriminate].
  destruct (take_until "]" r1) as [[alt r2] |]; [| discriminate].
  destruct (strip_prefix "(" r2) as [r3 |]; [| discriminate].
  destruct (take_until ")" r3) as [[[| c u] r4] |]; try discriminate.
  cbn. now intros [= <-].
Qed.

(** X28. An article is kept for publication only if its conversion
    returned and the Markdown left after the leading image has at least 100
    characters. The kept article has the URL, title and tags of the scraped
    one, and when a leading image was extracted it is that image, not the
    one the scraper found, that goes into the [image] tag of the event. *)
Theorem kept_items_carry_the_extracted_image :
  forall (to_markdown : string -> string -> Settled string)
         (articles : list RektArticle) (item : RektArticle * string),
    In item (kept_items to_markdown articles) ->
    100 <= String.length (snd item)
    /\ exists article md,
         In article articles
         /\ to_markdown (content article) (url article) = inr md
         /\ snd item = markdown (extractLeadingImage md)
         /\ url (fst item) = url article
         /\ title (fst item) = title article
         /\ tags (fst item) = tags article
         /\ forall (pf : Platform) (articleId : string),
              optional_tag "image" (image (fst item))
              = match extractedImage (extractLeadingImage md) with
                | Some extracted => [["image"; extracted]]
                | None => optional_tag "image" (image article)
                end
              /\ incl (optional_tag "image" (image (fst item)))
                      (buildTags pf (fst item) articleId).
Proof.
  intros to_markdown articles item Hin. unfold kept_items in Hin.
  apply in_flat_map in Hin as (article & Hart & Hitem).
  destruct (to_markdown (content article) (url article)) as [e | md] eqn:E;
    [destruct Hitem |].
  cbv zeta in Hitem.
  destruct (String.length (markdown (extractLeadingImage md)) <? 100) eqn:Hlen;
    [destruct Hitem |].
  destruct Hitem as [<- | []]. apply Nat.ltb_ge in Hlen.
  split; [exact Hlen |]. exists article, md.
  repeat split; try reflexivity; try assumption.
  - cbn [processed_item fst image].
    destruct (extractedImage (extractLeadingImage md)) as [target |] eqn:Et.
    + rewrite (extractLeadingImage_target_nonempty md target Et).
      pose proof (extractLeadingImage_target_nonempty md target Et) as Hne.
      destruct target; [discriminate Hne | reflexivity].
    + reflexivity.
  - rewrite buildTags_closed_form. intros entry Hentry.
    apply in_or_app. right. apply in_or_app. right.
    apply in_or_app. now left.
Qed.




Section MirrorPublishing.

Context (pf : Platform) (lib : SignerLib) (sw : ScrapeWorld)
        (to_markdown : string -> string -> Settled string)
        (worlds : nat -> World).



End MirrorPublishing.

(** ** The further properties at concrete inputs *)

Lemma wait_resolves_at_most_once_witness :
  count is_resolve
    (snd (event_loop ["wss://a"; "wss://b"; "wss://c"]
            [Next "wss://a"; TimerDue; Next "wss://b"; TimerDue] wait_start))
  = 1.
Proof.
  destruct (wait_resolves_at_most_once ["wss://a"; "wss://b"; "wss://c"]
              [Next "wss://a"; TimerDue; Next "wss://b"; TimerDue])
    as (_ & _ & _ & H).
  apply H. reflexivity.
Defined.

Lemma wait_counts_observations_not_relays_witness :
  length ["wss://a"; "wss://a"] = length ["wss://a"; "wss://b"]
  /\ waitForPublication "e" ["wss://a"; "wss://b"; "wss://c"]
       ["wss://a"; "wss://a"]
     = waitForPublication "e" ["wss://a"; "wss://b"; "wss://c"]
         ["wss://a"; "wss://b"].
Proof.
  split; [reflexivity |].
  destruct (wait_counts_observations_not_relays
              ["wss://a"; "wss://b"; "wss://c"] "e") as [H _].
  apply H. reflexivity.
Defined.

Lemma publishArticle_rethrows_unchanged_witness :
  signer (publisher_with (signer_refusing "one"))
  = Some (signer_refusing "one")
  /\ publishArticle sample_platform (publisher_with (signer_refusing "one"))
       (article_at "/one") "# one" two_relays (calm_world [])
     = (Throw (ErrorObj "signing refused"),
        [ SignEvent (article_event sample_platform (article_at "/one") "one"
                       "# one" (calm_world []));
          Console (LogPublishFailed "signing refused") ]).
Proof.
  split; [reflexivity |].
  destruct (publishArticle_rethrows_unchanged sample_platform
              (publisher_with (signer_refusing "one")) (article_at "/one")
              "# one" two_relays (calm_world []) (signer_refusing "one")
              eq_refl) as (_ & H & _).
  apply (H "one" (ErrorObj "signing refused")); reflexivity.
Defined.

Lemma publishArticle_waits_only_when_published_witness :
  filter is_wait_effect
    (trace (publishArticle sample_platform
              (publisher_with (signer_refusing "one")) (article_at "/one")
              "# one" two_relays (calm_world [])))
  = [].
Proof.
  destruct (publishArticle_waits_only_when_published sample_platform
              (publisher_with (signer_refusing "one")) (article_at "/one")
              "# one" two_relays (calm_world [])) as [H _].
  apply (H (ErrorObj "signing refused")). reflexivity.
Defined.

Lemma publishMultipleArticles_without_signer_witness :
  signer new_NIP23Publisher = None
  /\ completion
       (publishMultipleArticles sample_platform new_NIP23Publisher
          two_articles two_relays 5000 (fun _ => calm_world ["wss://a"]))
     = Normal [].
Proof.
  split; [reflexivity |].
  now rewrite (publishMultipleArticles_without_signer sample_platform
                 new_NIP23Publisher two_relays 5000
                 (fun _ => calm_world ["wss://a"]) two_articles eq_refl).
Defined.

Lemma createArticleId_is_never_empty_witness :
  createArticleId sample_platform "https://site/" = (Normal "article", [])
  /\ "article" <> EmptyString.
Proof.
  split; [reflexivity |].
  apply (createArticleId_is_never_empty sample_platform "https://site/"
           "article" []).
  reflexivity.
Defined.

Lemma createArticleId_ignores_final_slash_witness :
  ends_with_slash "/x/y" = false
  /\ createArticleId sample_platform "https://site/x/y"
     = createArticleId sample_platform "https://site/x/y/".
Proof.
  split; [reflexivity |].
  apply (createArticleId_ignores_final_slash sample_platform
           "https://site/x/y" "https://site/x/y/" "/x/y"); reflexivity.
Defined.

Lemma createSigner_returns_validated_signers_witness :
  createSigner lib_rejecting_plainly "nsec1"
  = (Normal (signer_refusing ""), [FromKey "nsec1"; GetPublicKey])
  /\ exists publicKey, getPublicKey (signer_refusing "") = inr publicKey.
Proof.
  split; [reflexivity |].
  apply (createSigner_returns_validated_signers lib_rejecting_plainly "nsec1"
           (signer_refusing "") [FromKey "nsec1"; GetPublicKey]).
  reflexivity.
Defined.


Lemma extractLeadingImage_takes_the_leading_image_witness :
  all_whitespace " " = true
  /\ extractLeadingImage " ![a](u.png) text "
     = {| markdown := "text"; extractedImage := Some "u.png" |}.
Proof.
  split; [reflexivity |].
  apply (extractLeadingImage_takes_the_leading_image " " "a" "u.png" " text ");
    try reflexivity.
  discriminate.
Defined.

Lemma leading_image_is_extracted_with_its_title_witness :
  lacks ")" "T" = true
  /\ extractedImage
       (extractLeadingImage
          (image_replacement (Some "a") (Some "u.png") (Some "T")
             ++ " text")%string)
     = Some ("u.png " ++ String double_quote "T"
               ++ String double_quote "")%string.
Proof.
  split; [reflexivity |].
  rewrite (leading_image_is_extracted_with_its_title "a" "u.png" "T" " text");
    try reflexivity; discriminate.
Defined.

Lemma blockquote_replacement_quotes_every_line_witness :
  trim " " = EmptyString
  /\ exists body,
       blockquote_replacement " "
       = (body ++ String newline (String newline ""))%string
       /\ body = "> ".
Proof.
  split; [reflexivity |].
  destruct (blockquote_replacement_quotes_every_line " ")
    as (body & H1 & _ & H3).
  exists body. split; [exact H1 | apply H3; reflexivity].
Defined.

Lemma check_accepts_exactly_witness :
  check {| argv_signer := None; argv_limit := NaN; argv_delay := NaN;
           argv_dryRun := true |}
  = inr tt.
Proof.
  apply (check_accepts_exactly
           {| argv_signer := None; argv_limit := NaN; argv_delay := NaN;
              argv_dryRun := true |}).
  split; [now left | split; exact I].
Defined.

Lemma coerce_relays_never_gives_an_empty_list_witness :
  defaultRelays new_NIP23Publisher <> []
  /\ (1 <= quorum (target_relays new_NIP23Publisher
                     {| relays := coerce_relays "wss://a, wss://b,";
                        signerString := "nsec1" |}))%Z.
Proof.
  assert (H : defaultRelays new_NIP23Publisher <> []) by discriminate.
  split; [exact H |].
  destruct (coerce_relays_never_gives_an_empty_list "wss://a, wss://b,")
    as [_ Hq].
  apply (Hq new_NIP23Publisher "nsec1" H).
Defined.

Lemma isArticleLink_refuses_patterns_anywhere_witness :
  In "/feed" excludePatterns
  /\ toLowerCase rekt_platform "/Feedback-loop"
     = ("" ++ "/feed" ++ "back-loop")%string
  /\ isArticleLink rekt_platform "/Feedback-loop" = false.
Proof.
  assert (Hin : In "/feed" excludePatterns) by (simpl; tauto).
  split; [exact Hin |]. split; [reflexivity |].
  destruct (isArticleLink_refuses_patterns_anywhere rekt_platform
              "/Feedback-loop") as [H _].
  apply (H "" "/feed" "back-loop" Hin). reflexivity.
Defined.

Lemma isArticleLink_refuses_number_paths_witness :
  all_in_class is_digit_dash_underscore "2024-01_02" = true
  /\ isArticleLink rekt_platform "/2024-01_02/" = false.
Proof.
  split; [reflexivity |].
  destruct (isArticleLink_refuses_number_paths rekt_platform "2024-01_02")
    as [_ H]; [discriminate | reflexivity | exact H].
Defined.

Lemma fetchArticleContent_keeps_the_article_witness :
  (forall page,
      fetch_page offline_scrape (url scraped_article) <> ResponseOk page)
  /\ fetchArticleContent offline_scrape scraped_article = scraped_article.
Proof.
  assert (H : forall page,
             fetch_page offline_scrape (url scraped_article)
             <> ResponseOk page) by (intros page; discriminate).
  split; [exact H |].
  destruct (fetchArticleContent_keeps_the_article offline_scrape
              scraped_article) as (_ & _ & _ & Hsame & _).
  apply Hsame. exact H.
Defined.

Lemma fetchLatestArticles_result_witness :
  (forall posts, fetch_listing offline_scrape <> ResponseOk posts)
  /\ fetchLatestArticles rekt_platform offline_scrape (Finite (inject_Z 5))
     = []
  /\ length (fetchLatestArticles rekt_platform sample_scrape
               (Finite (inject_Z (Z.of_nat 5))))
     <= 5.
Proof.
  assert (H : forall posts, fetch_listing offline_scrape <> ResponseOk posts)
    by (intros posts; discriminate).
  split; [exact H |]. split.
  - destruct (fetchLatestArticles_result rekt_platform offline_scrape)
      as [Hall _].
    destruct (Hall (Finite (inject_Z 5))) as (_ & _ & Hnone).
    apply Hnone. exact H.
  - destruct (fetchLatestArticles_result rekt_platform sample_scrape)
      as (_ & Hlen & _).
    apply Hlen.
Defined.

Lemma dry_run_touches_neither_signer_nor_relays_witness :
  mc_dryRun dry_config = true
  /\ candidates
       (snd (RektNostrMirror_run rekt_platform lib_rejecting_plainly
               sample_scrape sample_to_markdown
               (fun _ => calm_world ["wss://a"]) new_NIP23Publisher
               dry_config))
     = [(1, "Big Hack", "https://rekt.news/big-hack")].
Proof.
  split; [reflexivity |].
  destruct (dry_run_touches_neither_signer_nor_relays rekt_platform
              lib_rejecting_plainly sample_scrape sample_to_markdown
              (fun _ => calm_world ["wss://a"]) new_NIP23Publisher dry_config
              eq_refl) as (_ & _ & H).
  rewrite H; [| vm_compute; reflexivity]. vm_compute. reflexivity.
Defined.

Lemma kept_items_carry_the_extracted_image_witness :
  In (processed_item scraped_article
        (extractLeadingImage
           ("![lead](https://rekt.news/lead.png) " ++ long_text)%string))
     (kept_items sample_to_markdown [scraped_article])
  /\ image (fst (processed_item scraped_article
                   (extractLeadingImage
                      ("![lead](https://rekt.news/lead.png) "
                         ++ long_text)%string)))
     = Some "https://rekt.news/lead.png"
  /\ 100 <= String.length long_text.
Proof.
  assert (Hin : In (processed_item scraped_article
                      (extractLeadingImage
                         ("![lead](https://rekt.news/lead.png) "
                            ++ long_text)%string))
                   (kept_items sample_to_markdown [scraped_article]))
    by (vm_compute; left; reflexivity).
  split; [exact Hin |]. split; [reflexivity |].
  destruct (kept_items_carry_the_extracted_image sample_to_markdown
              [scraped_article] _ Hin) as [H _].
  exact H.
Defined.

